(** * Yukibot: a shallow embedding of the bot's core and its checked properties

    The development follows the TypeScript sources:
    - [BroadcastHandler] (chat history paging, broadcast and chat polling,
      sending a message),
    - the money system ([getWallet], [transactionBatch]),
    - the [beatass] command handler,
    - [YukiBuilder] (command registration, the passive listener, the
      pre-build validation and the two build entry points),
    - the single-flight [AsyncCache] the builder instantiates.

    JavaScript numbers that hold balances, indices and counts are modelled
    as [Z]; objects used as dictionaries are [gmap string _]; asynchronous
    calls into a collaborator are modelled by the outcome the awaited
    promise settles with. *)

From stdpp Require Import gmap strings list fin_maps pretty.
From Stdlib Require Import ZArith.

#[local] Open Scope Z_scope.
#[local] Set Warnings "-register-all".

(** ** A fragment of JavaScript values *)

Module JS.

(** The values the modelled code branches on with [if (x)] or [!x]. *)
Inductive value :=
| Undefined
| Null
| Bool (b : bool)
| Num (n : Z)
| Str (s : string)
| Obj (props : list (string * value))
| Fun (tag : string).

(** ECMAScript [ToBoolean] restricted to these values (no NaN: numbers are
    integers here). *)
Definition ToBoolean (v : value) : bool :=
  match v with
  | Undefined | Null => false
  | Bool b => b
  | Num n => negb (n =? 0)
  | Str s => negb (String.eqb s "")
  | Obj _ | Fun _ => true
  end.

(** [typeof v === "function"] *)
Definition is_function (v : value) : bool :=
  match v with Fun _ => true | _ => false end.

(** [a ?? b] *)
Definition nullish_or (a b : value) : value :=
  match a with Undefined | Null => b | _ => a end.

(** What an awaited call into a collaborator settles with. *)
Inductive settled (A : Type) :=
| Resolved (a : A)
| Rejected.
Arguments Resolved {A} a.
Arguments Rejected {A}.

(** [Array.prototype.slice(start, end)] with integral arguments: negative
    indices count from the end, both ends are clamped to the length, and an
    end before the start gives the empty array. *)
Definition relative_index (len i : Z) : Z :=
  if i <? 0 then Z.max (len + i) 0 else Z.min i len.

Definition slice {A} (l : list A) (start end_ : Z) : list A :=
  let len := Z.of_nat (length l) in
  let k := relative_index len start in
  let final := relative_index len end_ in
  take (Z.to_nat (final - k)) (drop (Z.to_nat k) l).

End JS.

(** ** Result values

    Modelled from the spec: [Result<V>], [successOf] and [failure] live in
    the [util] module, which is not among the sources; the spec gives the
    type as [{success:true, value:V} | {success:false}]. *)

Module Res.

Inductive Result (V : Type) :=
| Success (value : V)
| Failure.
Arguments Success {V} value.
Arguments Failure {V}.

Definition successOf {V} (v : V) : Result V := Success v.
Definition failure {V} : Result V := Failure.

Definition success {V} (r : Result V) : bool :=
  match r with Success _ => true | Failure => false end.

(** The JavaScript object a result is; [enc] renders the payload. *)
Definition to_js {V} (enc : V -> JS.value) (r : Result V) : JS.value :=
  match r with
  | Success v => JS.Obj [("success"%string, JS.Bool true); ("value"%string, enc v)]
  | Failure => JS.Obj [("success"%string, JS.Bool false)]
  end.

End Res.

(** ** BroadcastHandler *)

Module BroadcastHandler.
Import JS Res.

(** [Schema$LiveBroadcast], with [snippet?.liveChatId] as one optional field. *)
Record LiveBroadcast := {
  broadcastId : string;
  snippet_liveChatId : option string
}.

(** [Schema$LiveChatMessage]: the fields the bot reads. *)
Record LiveChatMessage := {
  displayMessage : string;
  displayName : string;
  channelId : string
}.

(** [response.data] of a list call; both fields are optional in the API
    schema. *)
Record ListData (A : Type) := {
  items : option (list A);
  nextPageToken : option string
}.
Arguments items {A} _.
Arguments nextPageToken {A} _.

(** The remote client: what each call settles with, given its request. *)
Record Youtube := {
  liveBroadcasts_list : settled (ListData LiveBroadcast);
  liveChatMessages_list :
    option string -> option string -> settled (ListData LiveChatMessage);
  liveChatMessages_insert : option string -> string -> settled LiveChatMessage
}.

(** An entry of [ApiHandler.calls]. *)
Record ApiCall := {
  call_type : string;
  call_success : bool;
  call_time : Z
}.

(** The handler's fields, and the lines it has sent to its logger (oldest
    first, as [(level, message)]). *)
Record t := {
  _broadcast : option LiveBroadcast;
  chatHistory : list LiveChatMessage;
  chatNextPage : option string;
  calls : list ApiCall;
  logged : list (string * string)
}.

Definition set_broadcast (b : LiveBroadcast) (h : t) : t :=
  {| _broadcast := Some b; chatHistory := chatHistory h;
     chatNextPage := chatNextPage h; calls := calls h; logged := logged h |}.

Definition set_chatNextPage (p : option string) (h : t) : t :=
  {| _broadcast := _broadcast h; chatHistory := chatHistory h;
     chatNextPage := p; calls := calls h; logged := logged h |}.

Definition push_chatHistory (ms : list LiveChatMessage) (h : t) : t :=
  {| _broadcast := _broadcast h; chatHistory := chatHistory h ++ ms;
     chatNextPage := chatNextPage h; calls := calls h; logged := logged h |}.

(** [this.calls.unshift({type, success, time: new Date()})] *)
Definition unshift_call (ty : string) (ok : bool) (now : Z) (h : t) : t :=
  {| _broadcast := _broadcast h; chatHistory := chatHistory h;
     chatNextPage := chatNextPage h;
     calls := {| call_type := ty; call_success := ok; call_time := now |} :: calls h;
     logged := logged h |}.

Definition log (level msg : string) (h : t) : t :=
  {| _broadcast := _broadcast h; chatHistory := chatHistory h;
     chatNextPage := chatNextPage h; calls := calls h;
     logged := logged h ++ [(level, msg)] |}.

(** How the body of a [try] block ends. *)
Inductive completion (R : Type) :=
| Return (r : R)
| Normal
| Throw.
Arguments Return {R} r.
Arguments Normal {R}.
Arguments Throw {R}.

(** [get liveChatID] *)
Definition liveChatID (h : t) : option string :=
  match _broadcast h with
  | Some b => snippet_liveChatId b
  | None => None
  end.

(** [chatPage(index, max = 0)] *)
Definition chatPage (index max : Z) (h : t) : list LiveChatMessage :=
  slice (chatHistory h) index
    (if 0 <? max then index + max + 1 else Z.of_nat (length (chatHistory h))).

(** The [try] block of [fetchBroadcast]: reading [items.length] of a
    response without items throws. *)
Definition fetchBroadcast_try (client : Youtube) (now : Z) (h : t)
  : completion (Result LiveBroadcast) * t :=
  match liveBroadcasts_list client with
  | Rejected => (Throw, h)
  | Resolved data =>
    match items data with
    | None => (Throw, h)
    | Some [] => (Normal, h)
    | Some (first :: _) =>
      (Return (successOf first),
       unshift_call "list/broadcast" true now (set_broadcast first h))
    end
  end.

Definition fetchBroadcast (client : Youtube) (now : Z) (h : t)
  : Result LiveBroadcast * t :=
  let h0 := log "http" "fetching active broadcast" h in
  match fetchBroadcast_try client now h0 with
  | (Return r, h1) => (r, h1)
  | (Normal, h1) => (failure, unshift_call "list/broadcast" false now h1)
  | (Throw, h1) =>
    (failure,
     unshift_call "list/broadcast" false now
       (log "error" "failed to fetch broadcast" h1))
  end.

(** The [try] block of [fetchChatMessages]: the cursor is assigned before
    the new messages are spread into [push], and spreading a missing
    [items] throws. *)
Definition fetchChatMessages_try (client : Youtube) (now : Z) (h : t)
  : completion (Result (list LiveChatMessage)) * t :=
  match liveChatMessages_list client (liveChatID h) (chatNextPage h) with
  | Rejected => (Throw, h)
  | Resolved data =>
    let h1 := set_chatNextPage (nextPageToken data) h in
    match items data with
    | None => (Throw, h1)
    | Some newMessages =>
      (Return (successOf newMessages),
       unshift_call "list/message" true now (push_chatHistory newMessages h1))
    end
  end.

Definition fetchChatMessages (client : Youtube) (now : Z) (h : t)
  : Result (list LiveChatMessage) * t :=
  let h0 := log "http" "fetching chat messages" h in
  match fetchChatMessages_try client now h0 with
  | (Return r, h1) => (r, h1)
  | (Normal, h1) => (failure, unshift_call "list/message" false now h1)
  | (Throw, h1) =>
    (failure,
     unshift_call "list/message" false now
       (log "error" "failed to fetch chat messages" h1))
  end.

(** [sendMessage(messageText)] *)
Definition sendMessage (client : Youtube) (messageText : string) (h : t)
  : Result LiveChatMessage * t :=
  let h0 := log "http" "sending chat message" h in
  match liveChatMessages_insert client (liveChatID h0) messageText with
  | Resolved data => (successOf data, h0)
  | Rejected => (failure, log "error" "failed to send new chat message" h0)
  end.

(** *** Paging through the chat history *)

Lemma slice_nonneg {A} (l : list A) (i j : Z) :
  0 <= i -> i <= j ->
  slice l i j = take (Z.to_nat (j - i)) (drop (Z.to_nat i) l).
Proof.
  intros Hi Hj. unfold slice, relative_index.
  assert (Hlen := length_drop l (Z.to_nat i)).
  destruct (Z.ltb_spec i 0); [lia|].
  destruct (Z.ltb_spec j 0); [lia|].
  destruct (Z_le_gt_dec i (Z.of_nat (length l))) as [Hin|Hout].
  - rewrite (Z.min_l i) by lia.
    destruct (Z_le_gt_dec j (Z.of_nat (length l))).
    + rewrite Z.min_l by lia. done.
    + rewrite Z.min_r by lia.
      rewrite !take_ge; [done| |]; lia.
  - rewrite !Z.min_r by lia.
    rewrite Z.sub_diag. simpl.
    rewrite (drop_ge l (Z.to_nat i)) by lia.
    by rewrite take_nil, drop_ge by lia.
Qed.

Lemma slice_to_end {A} (l : list A) (i : Z) :
  0 <= i -> slice l i (Z.of_nat (length l)) = drop (Z.to_nat i) l.
Proof.
  intros Hi. unfold slice, relative_index.
  destruct (Z.ltb_spec i 0); [lia|].
  destruct (Z.ltb_spec (Z.of_nat (length l)) 0); [lia|].
  rewrite Z.min_id.
  destruct (Z_le_gt_dec i (Z.of_nat (length l))).
  - rewrite Z.min_l by lia. apply take_ge. rewrite length_drop. lia.
  - rewrite Z.min_r by lia. rewrite Z.sub_diag. simpl.
    by rewrite (drop_ge l (Z.to_nat i)) by lia.
Qed.

(** C9: for an index [i >= 0] and a maximum [m > 0], [chatPage i m] is the
    slice of the chat history from position [i] up to, and excluding,
    position [i + m + 1]: at most [m + 1] messages, and exactly [m + 1] when
    the history is long enough; for [m = 0], the default, it is the whole
    rest of the history from position [i] on. *)
Theorem chatPage_window (h : t) (i m : Z) :
  0 <= i ->
  (0 < m ->
     chatPage i m h = take (Z.to_nat (m + 1)) (drop (Z.to_nat i) (chatHistory h))
     /\ (forall k : nat,
           chatPage i m h !! k =
           if decide (Z.of_nat k < m + 1)
           then chatHistory h !! (Z.to_nat i + k)%nat else None)
     /\ (length (chatPage i m h) <= Z.to_nat (m + 1))%nat
     /\ (i + m + 1 <= Z.of_nat (length (chatHistory h)) ->
         length (chatPage i m h) = Z.to_nat (m + 1)))
  /\ chatPage i 0 h = drop (Z.to_nat i) (chatHistory h).
Proof.
  intros Hi. split.
  - intros Hm.
    assert (E : chatPage i m h
                = take (Z.to_nat (m + 1)) (drop (Z.to_nat i) (chatHistory h))).
    { unfold chatPage. destruct (Z.ltb_spec 0 m); [|lia].
      rewrite slice_nonneg by lia. do 2 f_equal. lia. }
    split; [exact E|]. rewrite E. split; [|split].
    + intros k. case_decide.
      * rewrite lookup_take_lt by lia. by rewrite lookup_drop.
      * by rewrite lookup_take_ge by lia.
    + rewrite length_take. lia.
    + intros Hfull. rewrite length_take, length_drop. lia.
  - unfold chatPage. simpl. by apply slice_to_end.
Qed.

Definition msg (text who uid : string) : LiveChatMessage :=
  {| displayMessage := text; displayName := who; channelId := uid |}.

Definition five_messages : t :=
  {| _broadcast := None;
     chatHistory := [msg "a" "ann" "u1"; msg "b" "bob" "u2"; msg "c" "cy" "u3";
                     msg "d" "dee" "u4"; msg "e" "eve" "u5"];
     chatNextPage := None; calls := []; logged := [] |}.

Lemma chatPage_window_witness :
  chatPage 1 2 five_messages
  = [msg "b" "bob" "u2"; msg "c" "cy" "u3"; msg "d" "dee" "u4"]
  /\ chatPage 1 0 five_messages
    = [msg "b" "bob" "u2"; msg "c" "cy" "u3"; msg "d" "dee" "u4";
       msg "e" "eve" "u5"].
Proof.
  assert (H : 0 <= 1) by lia.
  destruct (chatPage_window five_messages 1 2 H) as [Hm H0].
  split.
  - rewrite (proj1 (Hm ltac:(lia))). reflexivity.
  - rewrite H0. reflexivity.
Defined.

(** *** Polling: what a failed fetch leaves behind *)

(** The fields of the handler, without the logger's lines. *)
Definition fields (h : t)
  : option LiveBroadcast * list LiveChatMessage * option string * list ApiCall :=
  (_broadcast h, chatHistory h, chatNextPage h, calls h).

Definition failed_call (ty : string) (now : Z) : ApiCall :=
  {| call_type := ty; call_success := false; call_time := now |}.

Lemma fetchBroadcast_rejected (client : Youtube) (now : Z) (h : t) :
  liveBroadcasts_list client = Rejected ->
  (fetchBroadcast client now h).1 = failure
  /\ fields (fetchBroadcast client now h).2
    = (_broadcast h, chatHistory h, chatNextPage h,
       failed_call "list/broadcast" now :: calls h).
Proof.
  intros Hrej. unfold fetchBroadcast, fetchBroadcast_try.
  rewrite Hrej. done.
Qed.

Lemma fetchBroadcast_failure_frame (client : Youtube) (now : Z) (h : t) :
  (fetchBroadcast client now h).1 = failure ->
  fields (fetchBroadcast client now h).2
  = (_broadcast h, chatHistory h, chatNextPage h,
     failed_call "list/broadcast" now :: calls h).
Proof.
  unfold fetchBroadcast, fetchBroadcast_try.
  destruct (liveBroadcasts_list client) as [[[[|first rest]|] token]|];
    simpl; done.
Qed.

Lemma fetchBroadcast_keeps_chat (client : Youtube) (now : Z) (h : t) :
  chatHistory (fetchBroadcast client now h).2 = chatHistory h
  /\ chatNextPage (fetchBroadcast client now h).2 = chatNextPage h.
Proof.
  unfold fetchBroadcast, fetchBroadcast_try.
  destruct (liveBroadcasts_list client) as [[[[|first rest]|] token]|];
    simpl; done.
Qed.

Lemma fetchChatMessages_rejected (client : Youtube) (now : Z) (h : t) :
  liveChatMessages_list client (liveChatID h) (chatNextPage h) = Rejected ->
  (fetchChatMessages client now h).1 = failure
  /\ fields (fetchChatMessages client now h).2
    = (_broadcast h, chatHistory h, chatNextPage h,
       failed_call "list/message" now :: calls h).
Proof.
  intros Hrej. unfold fetchChatMessages, fetchChatMessages_try.
  change (liveChatID (log "http" "fetching chat messages" h))
    with (liveChatID h).
  change (chatNextPage (log "http" "fetching chat messages" h))
    with (chatNextPage h).
  rewrite Hrej. done.
Qed.

(** Whatever the response, a call that returns failure has not touched the
    chat history, and no call touches the held broadcast. *)
Lemma fetchChatMessages_failure_history (client : Youtube) (now : Z) (h : t) :
  _broadcast (fetchChatMessages client now h).2 = _broadcast h
  /\ ((fetchChatMessages client now h).1 = failure ->
      chatHistory (fetchChatMessages client now h).2 = chatHistory h).
Proof.
  unfold fetchChatMessages, fetchChatMessages_try.
  destruct (liveChatMessages_list _ _ _) as [[[its|] token]|]; simpl; done.
Qed.

(** A response that resolves without [items] is not a failed remote call,
    yet the function answers failure: the spread throws after the cursor
    was assigned, so the cursor has moved to the response's token. *)
Lemma fetchChatMessages_missing_items (client : Youtube) (now : Z) (h : t)
      (token : option string) :
  liveChatMessages_list client (liveChatID h) (chatNextPage h)
  = Resolved {| items := None; nextPageToken := token |} ->
  (fetchChatMessages client now h).1 = failure
  /\ chatHistory (fetchChatMessages client now h).2 = chatHistory h
  /\ chatNextPage (fetchChatMessages client now h).2 = token.
Proof.
  intros Hres. unfold fetchChatMessages, fetchChatMessages_try.
  change (liveChatID (log "http" "fetching chat messages" h))
    with (liveChatID h).
  change (chatNextPage (log "http" "fetching chat messages" h))
    with (chatNextPage h).
  rewrite Hres. done.
Qed.

(** C5: a failed remote fetch leaves the held state as it was.  When the
    broadcast list call fails, [fetchBroadcast] returns failure, and whenever
    it returns failure the held broadcast is unchanged (the handler has no
    event bus: nothing is published, and the chat history and cursor are
    untouched too).  When the chat list call fails, [fetchChatMessages]
    returns failure and both the chat history and the pagination cursor
    [chatNextPage] are unchanged. *)
Theorem failed_fetch_keeps_state (client : Youtube) (now : Z) (h : t) :
  (liveBroadcasts_list client = Rejected ->
     (fetchBroadcast client now h).1 = failure)
  /\ ((fetchBroadcast client now h).1 = failure ->
      _broadcast (fetchBroadcast client now h).2 = _broadcast h
      /\ chatHistory (fetchBroadcast client now h).2 = chatHistory h
      /\ chatNextPage (fetchBroadcast client now h).2 = chatNextPage h)
  /\ (liveChatMessages_list client (liveChatID h) (chatNextPage h) = Rejected ->
      (fetchChatMessages client now h).1 = failure
      /\ chatHistory (fetchChatMessages client now h).2 = chatHistory h
      /\ chatNextPage (fetchChatMessages client now h).2 = chatNextPage h
      /\ _broadcast (fetchChatMessages client now h).2 = _broadcast h).
Proof.
  split; [|split].
  - intros Hrej. apply (fetchBroadcast_rejected client now h Hrej).
  - intros Hfail.
    pose proof (fetchBroadcast_failure_frame client now h Hfail) as Hf.
    unfold fields in Hf. by simplify_eq.
  - intros Hrej.
    destruct (fetchChatMessages_rejected client now h Hrej) as [Hr Hf].
    unfold fields in Hf. by simplify_eq.
Qed.

(** C10: when the broadcast list call succeeds with zero items,
    [fetchBroadcast] returns failure, records the call as unsuccessful and
    keeps the held broadcast; the returned value and every field of the
    handler are the same as after a failed call (only the logger sees the
    difference). *)
Theorem fetchBroadcast_no_items (client : Youtube) (now : Z) (h : t)
        (token : option string) :
  liveBroadcasts_list client
  = Resolved {| items := Some []; nextPageToken := token |} ->
  (fetchBroadcast client now h).1 = failure
  /\ calls (fetchBroadcast client now h).2
    = failed_call "list/broadcast" now :: calls h
  /\ _broadcast (fetchBroadcast client now h).2 = _broadcast h
  /\ (forall failing : Youtube,
        liveBroadcasts_list failing = Rejected ->
        (fetchBroadcast failing now h).1 = (fetchBroadcast client now h).1
        /\ fields (fetchBroadcast failing now h).2
          = fields (fetchBroadcast client now h).2).
Proof.
  intros Hres.
  assert (Hrun : fetchBroadcast client now h
                 = (failure,
                    unshift_call "list/broadcast" false now
                      (log "http" "fetching active broadcast" h))).
  { unfold fetchBroadcast, fetchBroadcast_try. by rewrite Hres. }
  rewrite Hrun. simpl. repeat split.
  - by apply fetchBroadcast_rejected.
  - by apply fetchBroadcast_rejected.
Qed.

Definition down : Youtube :=
  {| liveBroadcasts_list := Rejected;
     liveChatMessages_list := fun _ _ => Rejected;
     liveChatMessages_insert := fun _ _ => Rejected |}.

Definition idle : Youtube :=
  {| liveBroadcasts_list := Resolved {| items := Some []; nextPageToken := None |};
     liveChatMessages_list :=
       fun _ _ => Resolved {| items := Some []; nextPageToken := Some "p1"%string |};
     liveChatMessages_insert := fun _ text => Resolved (msg text "yuki" "bot") |}.

Definition live : t :=
  {| _broadcast := Some {| broadcastId := "b1"; snippet_liveChatId := Some "chat1"%string |};
     chatHistory := [msg "hi" "ann" "u1"];
     chatNextPage := Some "p0"%string; calls := []; logged := [] |}.

Lemma failed_fetch_keeps_state_witness :
  (fetchBroadcast down 7 live).1 = failure
  /\ _broadcast (fetchBroadcast down 7 live).2 = _broadcast live
  /\ chatHistory (fetchChatMessages down 7 live).2 = [msg "hi" "ann" "u1"]
  /\ chatNextPage (fetchChatMessages down 7 live).2 = Some "p0"%string.
Proof.
  destruct (failed_fetch_keeps_state down 7 live) as (Hb & Hkeep & Hchat).
  specialize (Hb eq_refl). specialize (Hkeep Hb). specialize (Hchat eq_refl).
  split; [exact Hb|]. split; [apply Hkeep|].
  split; apply Hchat.
Defined.

Lemma fetchBroadcast_no_items_witness :
  (fetchBroadcast idle 7 live).1 = failure
  /\ _broadcast (fetchBroadcast idle 7 live).2 = _broadcast live
  /\ fields (fetchBroadcast down 7 live).2 = fields (fetchBroadcast idle 7 live).2.
Proof.
  destruct (fetchBroadcast_no_items idle 7 live None eq_refl)
    as (Hr & _ & Hb & Hsame).
  split; [exact Hr|]. split; [exact Hb|].
  apply (Hsame down eq_refl).
Defined.

End BroadcastHandler.

(** ** The money system

    [bank] is the module's ledger object once [loadBank] has run; user ids
    are its own properties.  [file] is the storage collaborator. *)

Module MoneySystem.
Import JS.

Definition bankFile : string := "./.private/bank.json".
Definition startingWallet : Z := 1000.

(** [bank[uid]] as the JavaScript value the code tests. *)
Definition bank_get (bank : gmap string Z) (uid : string) : value :=
  match bank !! uid with
  | Some n => Num n
  | None => Undefined
  end.

(** [getWallet(uid)]: the value returned and the ledger afterwards. *)
Definition getWallet (uid : string) (bank : gmap string Z) : Z * gmap string Z :=
  let bank1 :=
    if negb (ToBoolean (bank_get bank uid))
    then <[uid := startingWallet]> bank
    else bank in
  (default 0 (bank1 !! uid), bank1).

(** The storage collaborator: what [file.write(path, document)] settles
    with.  The serialised document is identified with the ledger it
    encodes. *)
Record File := {
  file_write : string -> gmap string Z -> settled unit
}.

(** The ledger in memory and the document held by [bankFile]. *)
Record World := {
  bank : gmap string Z;
  stored : option (gmap string Z)
}.

(** [saveBank()]: a write that fails leaves the stored document alone. *)
Definition saveBank (file : File) (w : World) : settled unit * World :=
  match file_write file bankFile (bank w) with
  | Resolved u => (Resolved u, {| bank := bank w; stored := Some (bank w) |})
  | Rejected => (Rejected, w)
  end.

(** [transactionBatch(map)]: the promise it returns settles as the awaited
    [saveBank()] does. *)
Definition transactionBatch (file : File) (map : list (string * Z)) (w : World)
  : settled unit * World :=
  let bank1 :=
    foldl (fun b '(uid, amount) =>
             let '(wallet, b1) := getWallet uid b in
             <[uid := wallet + amount]> b1)
          (bank w) map in
  saveBank file {| bank := bank1; stored := stored w |}.

(** The ledger once every pair of the batch has been applied, in order. *)
Definition applied (map : list (string * Z)) (bank : gmap string Z)
  : gmap string Z :=
  foldl (fun b '(uid, amount) =>
           <[uid := (getWallet uid b).1 + amount]> (getWallet uid b).2)
        bank map.

(** The balance [getWallet] reports for a stored entry. *)
Definition wallet_of (entry : option Z) : Z :=
  match entry with
  | Some n => if n =? 0 then startingWallet else n
  | None => startingWallet
  end.

(** One user's entry as a batch goes by. *)
Fixpoint entry_after (uid : string) (map : list (string * Z)) (entry : option Z)
  : option Z :=
  match map with
  | [] => entry
  | (u, amount) :: rest =>
    if decide (u = uid)
    then entry_after uid rest (Some (wallet_of entry + amount))
    else entry_after uid rest entry
  end.

Lemma getWallet_unseen (uid : string) (bank : gmap string Z) :
  bank !! uid = None ->
  getWallet uid bank = (startingWallet, <[uid := startingWallet]> bank).
Proof.
  intros Hnone. unfold getWallet, bank_get. rewrite Hnone. simpl.
  by rewrite lookup_insert_eq.
Qed.

Lemma getWallet_nonzero (uid : string) (bank : gmap string Z) (n : Z) :
  bank !! uid = Some n -> n <> 0 -> getWallet uid bank = (n, bank).
Proof.
  intros Hsome Hn. unfold getWallet, bank_get. rewrite Hsome. simpl.
  destruct (Z.eqb_spec n 0); [done|]. simpl. by rewrite Hsome.
Qed.

Lemma getWallet_zero (uid : string) (bank : gmap string Z) :
  bank !! uid = Some 0 ->
  getWallet uid bank = (startingWallet, <[uid := startingWallet]> bank).
Proof.
  intros Hzero. unfold getWallet, bank_get. rewrite Hzero. simpl.
  by rewrite lookup_insert_eq.
Qed.

Lemma getWallet_value (uid : string) (bank : gmap string Z) :
  (getWallet uid bank).1 = wallet_of (bank !! uid)
  /\ (getWallet uid bank).2 !! uid = Some (wallet_of (bank !! uid))
  /\ (forall other, other <> uid ->
        (getWallet uid bank).2 !! other = bank !! other).
Proof.
  destruct (bank !! uid) as [n|] eqn:Hlook.
  - destruct (Z.eq_dec n 0) as [->|Hn].
    + rewrite (getWallet_zero _ _ Hlook). simpl.
      rewrite lookup_insert_eq. split; [done|]. split; [done|].
      intros other Hne. by rewrite lookup_insert_ne.
    + rewrite (getWallet_nonzero _ _ _ Hlook Hn). simpl.
      destruct (Z.eqb_spec n 0); [done|]. by rewrite Hlook.
  - rewrite (getWallet_unseen _ _ Hlook). simpl.
    rewrite lookup_insert_eq. split; [done|]. split; [done|].
    intros other Hne. by rewrite lookup_insert_ne.
Qed.

(** C2 (the claim holds for unseen users and for non-zero balances; the
    code misses the zero balance): a user whose stored balance is exactly 0
    has an entry in the bank, and [getWallet] answers the starting balance
    1000 and overwrites the stored 0 with it. *)
Theorem getWallet_reseeds_zero_balance :
  ({[ "u1"%string := 0 ]} : gmap string Z) !! "u1"%string = Some 0
  /\ getWallet "u1" {[ "u1"%string := 0 ]}
     = (1000, {[ "u1"%string := 1000 ]}).
Proof.
  split; [done|].
  rewrite (getWallet_zero "u1" {[ "u1"%string := 0 ]}) by done.
  by rewrite insert_singleton_eq.
Qed.

(** *** Batch transactions and persistence *)

Lemma applied_cons (uid : string) (amount : Z) (map : list (string * Z))
      (bank : gmap string Z) :
  applied ((uid, amount) :: map) bank
  = applied map (<[uid := (getWallet uid bank).1 + amount]> (getWallet uid bank).2).
Proof. reflexivity. Qed.

Lemma applied_lookup (uid : string) (map : list (string * Z))
      (bank : gmap string Z) :
  applied map bank !! uid = entry_after uid map (bank !! uid).
Proof.
  revert bank. induction map as [|[u amount] rest IH]; intros bank; [done|].
  rewrite applied_cons, IH. cbn [entry_after].
  destruct (getWallet_value u bank) as (Hval & _ & Hother).
  case_decide as Hu.
  - subst u. by rewrite lookup_insert_eq, Hval.
  - rewrite lookup_insert_ne by done. by rewrite Hother.
Qed.

Lemma transactionBatch_unfold (file : File) (map : list (string * Z)) (w : World) :
  transactionBatch file map w
  = saveBank file {| bank := applied map (bank w); stored := stored w |}.
Proof.
  unfold transactionBatch.
  assert (Hfold : forall b,
    foldl (fun b '(uid, amount) =>
             let '(wallet, b1) := getWallet uid b in
             <[uid := wallet + amount]> b1) b map = applied map b);
    [|by rewrite Hfold].
  induction map as [|[u amount] rest IH]; intros b; [done|].
  simpl. rewrite IH. unfold applied. simpl. by destruct (getWallet u b).
Qed.

Lemma transactionBatch_bank (file : File) (map : list (string * Z)) (w : World) :
  bank (transactionBatch file map w).2 = applied map (bank w).
Proof.
  rewrite transactionBatch_unfold. unfold saveBank. simpl.
  by destruct (file_write file bankFile (applied map (bank w))).
Qed.

Definition unwritable : File := {| file_write := fun _ _ => Rejected |}.
Definition writable : File := {| file_write := fun _ _ => Resolved tt |}.

Definition saved_fifty : World :=
  {| bank := {[ "u1"%string := 50 ]}; stored := Some {[ "u1"%string := 50 ]} |}.

(** Against C3 as stated: the write fails, and the balance in memory has
    moved from 50 to 55 all the same. *)
Lemma transactionBatch_failed_write_keeps_deltas :
  file_write unwritable bankFile (applied [("u1"%string, 5)] (bank saved_fifty))
  = Rejected
  /\ (transactionBatch unwritable [("u1"%string, 5)] saved_fifty).1 = Rejected
  /\ bank saved_fifty !! "u1"%string = Some 50
  /\ bank (transactionBatch unwritable [("u1"%string, 5)] saved_fifty).2
     !! "u1"%string = Some 55
  /\ bank (transactionBatch unwritable [("u1"%string, 5)] saved_fifty).2
     <> bank saved_fifty.
Proof.
  assert (H55 : bank (transactionBatch unwritable [("u1"%string, 5)] saved_fifty).2
                !! "u1"%string = Some 55).
  { rewrite transactionBatch_bank, applied_lookup. reflexivity. }
  split; [done|]. split; [done|]. split; [done|]. split; [exact H55|].
  intros Heq. rewrite Heq in H55. discriminate H55.
Qed.

(** C3, amended: [transactionBatch] first applies every delta of the batch
    to the balances in memory, in order, and then writes the whole ledger.
    The deltas stay applied whatever the write does.  If the write fails,
    the failure reaches the caller and the stored document is the old one,
    so memory and storage may differ; if it succeeds, the stored document
    is the updated ledger. *)
Theorem transactionBatch_applies_then_persists
        (file : File) (map : list (string * Z)) (w : World) :
  (forall uid,
     bank (transactionBatch file map w).2 !! uid
     = entry_after uid map (bank w !! uid))
  /\ (file_write file bankFile (applied map (bank w)) = Rejected ->
      (transactionBatch file map w).1 = Rejected
      /\ stored (transactionBatch file map w).2 = stored w)
  /\ (file_write file bankFile (applied map (bank w)) = Resolved tt ->
      (transactionBatch file map w).1 = Resolved tt
      /\ stored (transactionBatch file map w).2
        = Some (bank (transactionBatch file map w).2)).
Proof.
  split.
  - intros uid. by rewrite transactionBatch_bank, applied_lookup.
  - rewrite transactionBatch_unfold. unfold saveBank. simpl.
    destruct (file_write file bankFile (applied map (bank w))) as [[]|];
      simpl; split; intros Hcase; try discriminate Hcase; done.
Qed.

Lemma transactionBatch_applies_then_persists_witness :
  bank (transactionBatch writable [("u1"%string, 5); ("u2"%string, -20)]
          saved_fifty).2 !! "u2"%string = Some 980
  /\ stored (transactionBatch unwritable [("u1"%string, 5)] saved_fifty).2
    = Some {[ "u1"%string := 50 ]}
  /\ (transactionBatch writable [("u1"%string, 5)] saved_fifty).1 = Resolved tt.
Proof.
  split; [|split].
  - rewrite (proj1 (transactionBatch_applies_then_persists writable
               [("u1"%string, 5); ("u2"%string, -20)] saved_fifty) "u2"%string).
    reflexivity.
  - apply (proj1 (proj2 (transactionBatch_applies_then_persists unwritable
               [("u1"%string, 5)] saved_fifty)) eq_refl).
  - apply (proj2 (proj2 (transactionBatch_applies_then_persists writable
               [("u1"%string, 5)] saved_fifty)) eq_refl).
Defined.

End MoneySystem.

(** ** The beatass command *)

Module BeatAss.
Import JS Res.

(** [authorDetails] of a message, and what [getRandomChatter] yields. *)
Record Chatter := {
  displayName : string;
  channelId : string
}.

(** The fields of [Command] given to the constructor. *)
Record Command := {
  name : string;
  alias : list string;
  cost : Z;
  cooldown : Z;
  globalCooldown : Z
}.

Definition beatass : Command :=
  {| name := "beatass"; alias := ["pickfight"%string];
     cost := 10; cooldown := 180; globalCooldown := 0 |}.

(** The payout descriptor a handler may return. *)
Record Payout := {
  uids : list string;
  amount : Z
}.

(** How a call of the handler ends: it returns a payout descriptor or
    [undefined], or it throws. *)
Inductive ending :=
| Returned (payout : option Payout)
| Thrown.

Definition author (m : BroadcastHandler.LiveChatMessage) : Chatter :=
  {| displayName := BroadcastHandler.displayName m;
     channelId := BroadcastHandler.channelId m |}.

Definition message_js (m : BroadcastHandler.LiveChatMessage) : value :=
  Obj [("displayMessage"%string, Str (BroadcastHandler.displayMessage m))].

Definition won_text (displayName target : string) (successPayout : Z) : string :=
  displayName +:+ " beat " +:+ target +:+ " 's ass (+"
    +:+ pretty successPayout +:+ ")".

Definition lost_text (displayName target : string) (defensePayout : Z) : string :=
  displayName +:+ " tried to beat " +:+ target
    +:+ " 's ass but failed and got 
          the shit smacked outta them (+"
    +:+ pretty defensePayout +:+ " to the defender)".

(** The handler.  Its collaborators are inputs, none of them being among
    the sources: [getRandomChatter]; [succeeds], the outcome of the
    comparison [Math.random() > 0.55] on doubles; and [sendMessage], what
    the awaited [yt.chat.sendMessage(text)] settles with.  Reading
    [target.displayName] of a missing target throws, and so does awaiting
    a rejected send.  The second component is the lines sent to
    [winston]. *)
Definition handler
           (getRandomChatter : list string -> option Chatter) (succeeds : bool)
           (sendMessage : string -> settled value)
           (msg : BroadcastHandler.LiveChatMessage) (_this : Command)
  : ending * list (string * string) :=
  let target := getRandomChatter [channelId (author msg)] in
  let debug := [("debug"%string, "running beatass"%string)] in
  let successPayout := cost _this * 2 in
  let defensePayout := cost _this in
  match target with
  | None => (Thrown, debug)
  | Some tg =>
    match sendMessage
            (if succeeds
             then won_text (displayName (author msg)) (displayName tg) successPayout
             else lost_text (displayName (author msg)) (displayName tg) defensePayout)
    with
    | Rejected => (Thrown, debug)
    | Resolved failed =>
      if ToBoolean failed
      then (Returned None,
            debug ++ [("error"%string, "failed to send message"%string)])
      else (Returned
              (Some {| uids := [if succeeds then channelId (author msg)
                                else channelId tg];
                       amount := if succeeds then successPayout else defensePayout |}),
            debug)
    end
  end.

(** [sendMessage] of the [BroadcastHandler] of the sources, as the sender
    the handler awaits: it never rejects and resolves with its result
    object. *)
Definition through_handler (client : BroadcastHandler.Youtube)
           (h : BroadcastHandler.t) (text : string) : settled value :=
  Resolved (to_js message_js (BroadcastHandler.sendMessage client text h).1).

(** The sender resolves with truthy values only. *)
Definition answers_truthy (sendMessage : string -> settled value) : Prop :=
  forall text v, sendMessage text = Resolved v -> ToBoolean v = true.

(** A result is an object, and every object is truthy. *)
Lemma result_truthy {V} (enc : V -> value) (r : Result V) :
  ToBoolean (to_js enc r) = true.
Proof. by destruct r. Qed.

Lemma sendMessage_truthy (client : BroadcastHandler.Youtube) (text : string)
      (h : BroadcastHandler.t) :
  ((BroadcastHandler.sendMessage client text h).1 = failure
   \/ exists sent, (BroadcastHandler.sendMessage client text h).1 = successOf sent)
  /\ ToBoolean (to_js message_js (BroadcastHandler.sendMessage client text h).1)
     = true.
Proof.
  split; [|apply result_truthy].
  unfold BroadcastHandler.sendMessage.
  destruct (BroadcastHandler.liveChatMessages_insert _ _ _) as [sent|]; simpl.
  - right. by exists sent.
  - by left.
Qed.

Definition nobody (_ : list string) : option Chatter := None.

Definition anyone (_ : list string) : option Chatter :=
  Some {| displayName := "bob"; channelId := "u2" |}.

(** Against C8 as stated: when [getRandomChatter] finds no one, the
    handler does not return [undefined]: it throws, before it sends
    anything. *)
Lemma handler_throws_without_target :
  (handler nobody true (through_handler BroadcastHandler.idle BroadcastHandler.live)
     (BroadcastHandler.msg ">beatass" "ann" "u1") beatass).1 = Thrown
  /\ (handler nobody true (through_handler BroadcastHandler.idle BroadcastHandler.live)
        (BroadcastHandler.msg ">beatass" "ann" "u1") beatass).1 <> Returned None.
Proof. split; [reflexivity|discriminate]. Qed.

(** C8, amended: [sendMessage] of [BroadcastHandler] resolves with a
    result object on its success path and on its failure path alike, and
    an object is truthy.  Whenever the sender the handler awaits answers
    such truthy values, the handler reads the answer as a failure flag: it
    never returns a payout descriptor, whatever the message, the draw and
    the target, and when a target was picked and the send settled it logs
    the failure and returns [undefined]. *)
Theorem handler_never_pays
        (getRandomChatter : list string -> option Chatter) (succeeds : bool)
        (sendMessage : string -> settled value)
        (msg : BroadcastHandler.LiveChatMessage) (_this : Command) :
  answers_truthy sendMessage ->
  (forall payout,
     (handler getRandomChatter succeeds sendMessage msg _this).1
     <> Returned (Some payout))
  /\ (forall tg,
        getRandomChatter [BroadcastHandler.channelId msg] = Some tg ->
        (forall text, sendMessage text <> Rejected) ->
        handler getRandomChatter succeeds sendMessage msg _this
        = (Returned None,
           [("debug"%string, "running beatass"%string);
            ("error"%string, "failed to send message"%string)]))
  /\ (forall client h,
        answers_truthy (through_handler client h)
        /\ forall text, through_handler client h text <> Rejected).
Proof.
  intros Htruthy. split_and!.
  - intros payout. unfold handler. cbn [channelId author].
    destruct (getRandomChatter _) as [tg|]; [|done].
    destruct (sendMessage _) as [failed|] eqn:Hsent; [|done].
    by rewrite (Htruthy _ _ Hsent).
  - intros tg Htg Hsettles. unfold handler. cbn [channelId author].
    rewrite Htg.
    destruct (sendMessage _) as [failed|] eqn:Hsent.
    + by rewrite (Htruthy _ _ Hsent).
    + by apply Hsettles in Hsent.
  - intros client h. split; [|done].
    intros text v [= <-]. apply result_truthy.
Qed.

Lemma handler_never_pays_witness :
  (handler anyone true (through_handler BroadcastHandler.idle BroadcastHandler.live)
     (BroadcastHandler.msg ">beatass" "ann" "u1") beatass).1 = Returned None
  /\ (handler anyone false (through_handler BroadcastHandler.down BroadcastHandler.live)
        (BroadcastHandler.msg ">beatass" "ann" "u1") beatass).1 = Returned None.
Proof.
  assert (Hidle : answers_truthy
                    (through_handler BroadcastHandler.idle BroadcastHandler.live)).
  { intros text v [= <-]. reflexivity. }
  assert (Hdown : answers_truthy
                    (through_handler BroadcastHandler.down BroadcastHandler.live)).
  { intros text v [= <-]. reflexivity. }
  split.
  - rewrite (proj1 (proj2 (handler_never_pays anyone true _
                             (BroadcastHandler.msg ">beatass" "ann" "u1")
                             beatass Hidle))
               {| displayName := "bob"; channelId := "u2" |} eq_refl
               ltac:(done)).
    reflexivity.
  - rewrite (proj1 (proj2 (handler_never_pays anyone false _
                             (BroadcastHandler.msg ">beatass" "ann" "u1")
                             beatass Hdown))
               {| displayName := "bob"; channelId := "u2" |} eq_refl
               ltac:(done)).
    reflexivity.
Defined.

End BeatAss.

(** ** YukiBuilder: command registration *)

Module Commands.

(** A built command: what registration and dispatch read of it. *)
Record Command := {
  name : string;
  alias : list string;
  cost : Z;
  cooldown : Z
}.

(** Modelled from the spec: [CommandBuilder] is not among the sources.  It
    collects what the registration DSL sets (name, alias list, cost,
    cooldown seconds); [allNames] is the name followed by the aliases, as
    [buildCommands] registers them, and [build] makes the command. *)
Record CommandBuilder := {
  b_name : string;
  b_alias : list string;
  b_cost : Z;
  b_cooldown : Z
}.

Definition newCommandBuilder : CommandBuilder :=
  {| b_name := ""; b_alias := []; b_cost := 0; b_cooldown := 0 |}.

Definition allNames (b : CommandBuilder) : list string :=
  b_name b :: b_alias b.

Definition build (b : CommandBuilder) : Command :=
  {| name := b_name b; alias := b_alias b;
     cost := b_cost b; cooldown := b_cooldown b |}.

(** A recipe of [commandRecipes] fills the builder it is handed. *)
Definition recipe : Type := CommandBuilder -> CommandBuilder.

(** The [commands] map of the builder and the lines sent to its logger. *)
Record Registry := {
  commands : gmap string Command;
  logged : list (string * string)
}.

Definition empty : Registry := {| commands := ∅; logged := [] |}.

(** [this.commands.has(n)] *)
Definition has (m : gmap string Command) (n : string) : bool :=
  bool_decide (is_Some (m !! n)).

Definition quoted (s : string) : string :=
  String (Ascii.ascii_of_nat 34) (s +:+ String (Ascii.ascii_of_nat 34) EmptyString).

(** The inner loop: [commands.set(cname, command)] for the name and every
    alias, each with a debug line. *)
Definition register (command : Command) (r : Registry) : Registry :=
  foldl (fun r cname =>
           {| commands := <[cname := command]> (commands r);
              logged := logged r ++ [("debug"%string,
                          "registered command " +:+ quoted cname)] |})
        r (name command :: alias command).

(** One turn of the loop of [buildCommands]: any duplicate among the
    builder's names skips the whole recipe, with one warning per duplicate. *)
Definition buildCommands_step (r : Registry) (dsl : recipe) : Registry :=
  let builder := dsl newCommandBuilder in
  let duplicates := filter (fun n => has (commands r) n = true) (allNames builder) in
  if (0 <? length duplicates)%nat
  then {| commands := commands r;
          logged := logged r ++
            map (fun n => ("warn"%string,
                   "command with name " +:+ n +:+
                   " has already been registered. this duplicate will be skipped"))
                duplicates |}
  else register (build builder) r.

Definition buildCommands (commandRecipes : list recipe) (r : Registry) : Registry :=
  foldl buildCommands_step r commandRecipes.

(** The dispatch test of the command listener: the command run for a token. *)
Definition callable (r : Registry) (n : string) : option Command :=
  if has (commands r) n then commands r !! n else None.

(** *** Duplicate registrations *)

Lemma register_names_lookup (command : Command) (names : list string)
      (r : Registry) (n : string) :
  commands (foldl (fun r cname =>
              {| commands := <[cname := command]> (commands r);
                 logged := logged r ++ [("debug"%string,
                             "registered command " +:+ quoted cname)] |})
            r names) !! n
  = if bool_decide (n ∈ names) then Some command else commands r !! n.
Proof.
  revert r. induction names as [|cname names IH]; intros r; cbn [foldl].
  - by rewrite bool_decide_eq_false_2 by apply not_elem_of_nil.
  - rewrite IH. cbn [commands].
    destruct (decide (n ∈ names)) as [Hin|Hout].
    + rewrite !bool_decide_eq_true_2; [done| |done]. by right.
    + rewrite (bool_decide_eq_false_2 (n ∈ names)) by done.
      destruct (decide (cname = n)) as [->|Hne].
      * rewrite lookup_insert_eq. rewrite bool_decide_eq_true_2; [done|]. by left.
      * rewrite lookup_insert_ne by done.
        rewrite bool_decide_eq_false_2; [done|].
        intros [->|Hin]%elem_of_cons; [done|done].
Qed.

Lemma register_lookup (command : Command) (r : Registry) (n : string) :
  commands (register command r) !! n
  = if bool_decide (n ∈ name command :: alias command)
    then Some command else commands r !! n.
Proof. apply register_names_lookup. Qed.

Lemma has_true (m : gmap string Command) (n : string) :
  has m n = true <-> is_Some (m !! n).
Proof. unfold has. apply bool_decide_eq_true. Qed.

Lemma callable_lookup (r : Registry) (n : string) :
  callable r n = commands r !! n.
Proof.
  unfold callable, has. case_bool_decide as Hsome; [done|].
  symmetry. by apply eq_None_not_Some.
Qed.

(** A recipe with a name that is already registered leaves the map alone. *)
Lemma buildCommands_step_duplicate (r : Registry) (dsl : recipe) (n : string) :
  n ∈ allNames (dsl newCommandBuilder) -> is_Some (commands r !! n) ->
  commands (buildCommands_step r dsl) = commands r.
Proof.
  intros Hin Hsome. unfold buildCommands_step.
  destruct (filter _ _) as [|d ds] eqn:Hdup; [|done].
  assert (Hd : n ∈ filter (fun n => has (commands r) n = true)
                    (allNames (dsl newCommandBuilder))).
  { apply list_elem_of_filter. split; [by apply has_true|done]. }
  rewrite Hdup in Hd. by apply not_elem_of_nil in Hd.
Qed.

(** A recipe none of whose names is registered is registered whole. *)
Lemma buildCommands_step_fresh (r : Registry) (dsl : recipe) :
  (forall n, n ∈ allNames (dsl newCommandBuilder) -> commands r !! n = None) ->
  buildCommands_step r dsl = register (build (dsl newCommandBuilder)) r.
Proof.
  intros Hfresh. unfold buildCommands_step.
  destruct (filter _ _) as [|d ds] eqn:Hdup; [done|].
  assert (Hd : d ∈ filter (fun n => has (commands r) n = true)
                    (allNames (dsl newCommandBuilder))).
  { rewrite Hdup. by left. }
  apply list_elem_of_filter in Hd as [Hhas Hin].
  apply has_true in Hhas. rewrite (Hfresh d Hin) in Hhas.
  by destruct Hhas.
Qed.

(** Once a name is registered, no later recipe rebinds it. *)
Lemma buildCommands_step_keeps (r : Registry) (dsl : recipe)
      (n : string) (c : Command) :
  commands r !! n = Some c -> commands (buildCommands_step r dsl) !! n = Some c.
Proof.
  intros Hreg.
  destruct (decide (Exists (fun k => is_Some (commands r !! k))
                      (allNames (dsl newCommandBuilder)))) as [Hdup|Hfresh].
  - apply Exists_exists in Hdup as (k & Hk & Hsome).
    by rewrite (buildCommands_step_duplicate r dsl k).
  - rewrite buildCommands_step_fresh.
    + rewrite register_lookup. case_bool_decide as Hin; [|done].
      exfalso. apply Hfresh. apply Exists_exists. exists n. by rewrite Hreg.
    + intros k Hk. apply eq_None_not_Some. intros Hsome.
      apply Hfresh. apply Exists_exists. by exists k.
Qed.

Lemma buildCommands_keeps (commandRecipes : list recipe) (r : Registry)
      (n : string) (c : Command) :
  commands r !! n = Some c ->
  commands (buildCommands commandRecipes r) !! n = Some c.
Proof.
  revert r. induction commandRecipes as [|dsl rest IH]; intros r Hreg; [done|].
  simpl. apply IH. by apply buildCommands_step_keeps.
Qed.

Definition recipe_of (n : string) (aliases : list string) : recipe :=
  fun b => {| b_name := n; b_alias := aliases;
              b_cost := b_cost b; b_cooldown := b_cooldown b |}.

(** Against C1 as stated: the second registration shares only [b] with the
    first, and its other name [c] is not registered after the build. *)
Lemma second_registration_dropped_whole :
  "b"%string ∈ allNames (recipe_of "a" ["b"%string] newCommandBuilder)
  /\ "b"%string ∈ allNames (recipe_of "b" ["c"%string] newCommandBuilder)
  /\ "c"%string ∈ allNames (recipe_of "b" ["c"%string] newCommandBuilder)
  /\ ("c"%string ∉ allNames (recipe_of "a" ["b"%string] newCommandBuilder))
  /\ callable (buildCommands [recipe_of "a" ["b"%string];
                              recipe_of "b" ["c"%string]] empty) "c" = None.
Proof.
  split_and!; [by apply (bool_decide_unpack _).. | reflexivity].
Qed.

(** The warning logged for a name that is already registered. *)
Definition duplicate_warning (n : string) : string * string :=
  ("warn"%string,
   "command with name " +:+ n +:+
   " has already been registered. this duplicate will be skipped").

Lemma buildCommands_app (l1 l2 : list recipe) (r : Registry) :
  buildCommands (l1 ++ l2) r = buildCommands l2 (buildCommands l1 r).
Proof. apply foldl_app. Qed.

(** The turn of a recipe with a name that is already registered: the map
    is kept and one warning is logged for each such name. *)
Lemma buildCommands_step_skips (r : Registry) (dsl : recipe) (n : string) :
  n ∈ allNames (dsl newCommandBuilder) -> is_Some (commands r !! n) ->
  buildCommands_step r dsl
  = {| commands := commands r;
       logged := logged r
                 ++ map duplicate_warning
                      (filter (fun k => has (commands r) k = true)
                         (allNames (dsl newCommandBuilder))) |}.
Proof.
  intros Hin Hsome. unfold buildCommands_step.
  destruct (filter _ _) as [|d ds] eqn:Hdup; [|done].
  assert (Hd : n ∈ filter (fun k => has (commands r) k = true)
                    (allNames (dsl newCommandBuilder))).
  { apply list_elem_of_filter. split; [by apply has_true|done]. }
  rewrite Hdup in Hd. by apply not_elem_of_nil in Hd.
Qed.

(** C1, amended: take any two registrations of the build, the first of
    which goes through and the second of which, anywhere after it, shares
    a name or alias with it.  After the build phase the first command is
    callable under every one of its names.  At its turn the second
    registration is skipped as a whole: one warning is logged for each of
    its names that is already registered, the shared ones among them, and
    the map of commands is left as it was, so that a name of the second
    that was not registered before its turn is not registered by it. *)
Theorem duplicate_registration_skipped
        (r0 : Registry) (before between rest : list recipe)
        (first second : recipe) :
  (forall n, n ∈ allNames (first newCommandBuilder) ->
     commands (buildCommands before r0) !! n = None) ->
  (exists n, n ∈ allNames (first newCommandBuilder)
             /\ n ∈ allNames (second newCommandBuilder)) ->
  (forall n, n ∈ allNames (first newCommandBuilder) ->
     callable (buildCommands (before ++ first :: between ++ second :: rest) r0) n
     = Some (build (first newCommandBuilder)))
  /\ commands (buildCommands (before ++ first :: between ++ [second]) r0)
    = commands (buildCommands (before ++ first :: between) r0)
  /\ logged (buildCommands (before ++ first :: between ++ [second]) r0)
    = logged (buildCommands (before ++ first :: between) r0)
      ++ map duplicate_warning
           (filter (fun n =>
                      has (commands (buildCommands (before ++ first :: between) r0))
                          n = true)
              (allNames (second newCommandBuilder)))
  /\ (forall n, n ∈ allNames (first newCommandBuilder) ->
        n ∈ allNames (second newCommandBuilder) ->
        n ∈ filter (fun n =>
                      has (commands (buildCommands (before ++ first :: between) r0))
                          n = true)
              (allNames (second newCommandBuilder)))
  /\ (forall n, n ∈ allNames (second newCommandBuilder) ->
        callable (buildCommands (before ++ first :: between) r0) n = None ->
        callable (buildCommands (before ++ first :: between ++ [second]) r0) n
        = None).
Proof.
  intros Hfresh (shared & Hs1 & Hs2).
  set (rA := buildCommands before r0) in *.
  set (r1 := buildCommands (before ++ first :: between) r0).
  assert (Hr1 : r1 = buildCommands between (buildCommands_step rA first)).
  { unfold r1. by rewrite buildCommands_app. }
  assert (Hfirst : forall n, n ∈ allNames (first newCommandBuilder) ->
            commands r1 !! n = Some (build (first newCommandBuilder))).
  { intros n Hn. rewrite Hr1. apply buildCommands_keeps.
    rewrite buildCommands_step_fresh by done.
    rewrite register_lookup. by rewrite bool_decide_eq_true_2. }
  assert (Hturn : buildCommands (before ++ first :: between ++ [second]) r0
                  = buildCommands_step r1 second).
  { unfold r1.
    replace (before ++ first :: between ++ [second])
      with ((before ++ first :: between) ++ [second])
      by (by rewrite <- app_assoc).
    by rewrite buildCommands_app. }
  assert (Hskip : buildCommands_step r1 second
                  = {| commands := commands r1;
                       logged := logged r1
                         ++ map duplicate_warning
                              (filter (fun k => has (commands r1) k = true)
                                 (allNames (second newCommandBuilder))) |}).
  { apply (buildCommands_step_skips r1 second shared Hs2).
    by rewrite (Hfirst shared Hs1). }
  rewrite Hturn, Hskip. cbn [commands logged]. split_and!; try done.
  - intros n Hn. rewrite callable_lookup.
    replace (before ++ first :: between ++ second :: rest)
      with ((before ++ first :: between ++ [second]) ++ rest)
      by (rewrite <- app_assoc; cbn; by rewrite <- app_assoc).
    rewrite buildCommands_app, Hturn. apply buildCommands_keeps.
    rewrite Hskip. cbn [commands]. by apply Hfirst.
  - intros n Hn1 Hn2. apply list_elem_of_filter. split; [|done].
    apply has_true. by rewrite (Hfirst n Hn1).
Qed.

Lemma duplicate_registration_skipped_witness :
  callable (buildCommands [recipe_of "x" []; recipe_of "a" ["b"%string];
                           recipe_of "d" []; recipe_of "b" ["c"%string];
                           recipe_of "e" []] empty) "b"
  = Some (build (recipe_of "a" ["b"%string] newCommandBuilder))
  /\ logged (buildCommands [recipe_of "x" []; recipe_of "a" ["b"%string];
                            recipe_of "d" []; recipe_of "b" ["c"%string]] empty)
    = logged (buildCommands [recipe_of "x" []; recipe_of "a" ["b"%string];
                             recipe_of "d" []] empty)
      ++ [duplicate_warning "b"].
Proof.
  assert (Hfresh : forall n,
            n ∈ allNames (recipe_of "a" ["b"%string] newCommandBuilder) ->
            commands (buildCommands [recipe_of "x" []] empty) !! n = None).
  { intros n Hn. apply elem_of_cons in Hn as [->|Hn]; [done|].
    apply list_elem_of_singleton in Hn as ->. done. }
  assert (Hshared : exists n,
            n ∈ allNames (recipe_of "a" ["b"%string] newCommandBuilder)
            /\ n ∈ allNames (recipe_of "b" ["c"%string] newCommandBuilder)).
  { exists "b"%string. split; by apply (bool_decide_unpack _). }
  destruct (duplicate_registration_skipped empty
              [recipe_of "x" []] [recipe_of "d" []] [recipe_of "e" []]
              (recipe_of "a" ["b"%string]) (recipe_of "b" ["c"%string])
              Hfresh Hshared) as (Hcall & _ & Hlog & _).
  split.
  - apply Hcall. by apply (bool_decide_unpack _).
  - exact Hlog.
Defined.

End Commands.

(** ** YukiBuilder: the passive listener *)

Module Passives.
Import JS.

(** [TokenBin], the result of [tokenize]. *)
Record TokenBin := {
  isCommand : bool;
  command : string;
  args : list string
}.

(** What a callback leaves on the passive it was handed as [self]: the
    memory, and whether it called [self.remove()]. *)
Record Self := {
  its_memory : value;
  remove_called : bool
}.

(** Modelled from the spec: [Passive] and [MemoryPassive] are not among
    the sources.  A passive holds the predicate and the handler it was
    registered with and, optionally, a memory of its own.  Both functions
    receive the passive itself: they read its memory, may replace it, and
    may call [self.remove()] to deregister the passive, which is recorded
    in [removed].  A predicate's promise resolves to a boolean or
    rejects. *)
Record Passive := {
  predicate : BroadcastHandler.LiveChatMessage -> TokenBin -> value
              -> settled bool * Self;
  invoke : BroadcastHandler.LiveChatMessage -> TokenBin -> value
           -> settled unit * Self;
  memory : value;
  removed : bool
}.

Definition remember (s : Self) (p : Passive) : Passive :=
  {| predicate := predicate p; invoke := invoke p;
     memory := its_memory s; removed := removed p || remove_called s |}.

(** What the listener does, in the order it does it: the predicate of the
    passive at a position is evaluated, the handler of the passive at a
    position is invoked. *)
Inductive Event :=
| Evaluated (i : nat)
| Invoked (i : nat).

(** [Promise.all]: all values, or a rejection if any promise rejects. *)
Fixpoint Promise_all {A} (ps : list (settled A)) : settled (list A) :=
  match ps with
  | [] => Resolved []
  | Rejected :: _ => Rejected
  | Resolved a :: rest =>
    match Promise_all rest with
    | Resolved l => Resolved (a :: l)
    | Rejected => Rejected
    end
  end.

Section Listener.

(** [tokenize] lives in the tokenization module, which is not among the
    sources; [prefix] is [yukiConfig.prefix]. *)
Variable tokenize : string -> string -> TokenBin.
Variable prefix : string.

(** [this.passives.map((p) => p.predicate(msg, tokens, p))], the passive at
    the head of [passives] being at position [i].  The listener of the
    sources hands every element of [this.passives] to its predicate: it
    reads no removal mark. *)
Fixpoint predicates_from (i : nat) (msg : BroadcastHandler.LiveChatMessage)
         (tokens : TokenBin) (passives : list Passive)
  : list (settled bool) * list Passive * list Event :=
  match passives with
  | [] => ([], [], [])
  | p :: rest =>
    let '(verdict, m) := predicate p msg tokens (memory p) in
    let '(verdicts, rest', events) := predicates_from (S i) msg tokens rest in
    (verdict :: verdicts, remember m p :: rest', Evaluated i :: events)
  end.

(** [this.passives.filter((_, i) => predicates[i]).map((p) => p.invoke(msg,
    tokens, p))] *)
Fixpoint invocations_from (i : nat) (msg : BroadcastHandler.LiveChatMessage)
         (tokens : TokenBin) (passives : list Passive) (predicates : list bool)
  : list (settled unit) * list Passive * list Event :=
  match passives, predicates with
  | p :: rest, matched :: flags =>
    if matched
    then
      let '(done, m) := invoke p msg tokens (memory p) in
      let '(dones, rest', events) := invocations_from (S i) msg tokens rest flags in
      (done :: dones, remember m p :: rest', Invoked i :: events)
    else
      let '(dones, rest', events) := invocations_from (S i) msg tokens rest flags in
      (dones, p :: rest', events)
  | _, _ => ([], passives, [])
  end.

(** [runCount]: [predicates.reduce((sum, cur) => sum + (cur ? 1 : 0), 0)] *)
Definition runCount (predicates : list bool) : Z :=
  foldl (fun sum (cur : bool) => sum + (if cur then 1 else 0)) 0 predicates.

(** What one run of the listener leaves: how its promise settles, the
    passives, the logger's lines and the events in order. *)
Record Run := {
  settles : settled unit;
  passives_after : list Passive;
  lines : list (string * string);
  events : list Event
}.

(** The callback that [addPassiveListener] hands to [onMessage]. *)
Definition passiveListener (passives : list Passive)
           (msg : BroadcastHandler.LiveChatMessage) : Run :=
  let tokens := tokenize (BroadcastHandler.displayMessage msg) prefix in
  let '(verdicts, passives1, evaluated) := predicates_from 0 msg tokens passives in
  match Promise_all verdicts with
  | Rejected =>
    {| settles := Rejected; passives_after := passives1; lines := [];
       events := evaluated |}
  | Resolved predicates =>
    let line := ("info"%string,
                 "running " +:+ pretty (runCount predicates) +:+ "/"
                   +:+ pretty (length passives) +:+ " passives") in
    let '(dones, passives2, invoked) :=
      invocations_from 0 msg tokens passives1 predicates in
    {| settles := match Promise_all dones with
                  | Resolved _ => Resolved tt
                  | Rejected => Rejected
                  end;
       passives_after := passives2; lines := [line];
       events := evaluated ++ invoked |}
  end.

(** The predicate of [p] returns true on the message. *)
Definition matches (msg : BroadcastHandler.LiveChatMessage) (p : Passive) : bool :=
  match (predicate p msg (tokenize (BroadcastHandler.displayMessage msg) prefix)
           (memory p)).1 with
  | Resolved true => true
  | _ => false
  end.

(** The positions, counted from [i], of the passives that match. *)
Fixpoint matched_from (i : nat) (msg : BroadcastHandler.LiveChatMessage)
         (passives : list Passive) : list nat :=
  match passives with
  | [] => []
  | p :: rest =>
    if matches msg p
    then i :: matched_from (S i) msg rest
    else matched_from (S i) msg rest
  end.


(** The positions, counted from [i], of the flags that are set. *)
Fixpoint true_positions (i : nat) (flags : list bool) : list nat :=
  match flags with
  | [] => []
  | b :: rest => if b then i :: true_positions (S i) rest
                 else true_positions (S i) rest
  end.

Lemma Promise_all_resolved {A} (ps : list (settled A)) (l : list A) :
  Promise_all ps = Resolved l <-> ps = Resolved <$> l.
Proof.
  revert l. induction ps as [|[a|] rest IH]; intros l; simpl.
  - split; [intros [= <-]; done|]. by destruct l.
  - destruct (Promise_all rest) as [l'|] eqn:Hrest.
    + split.
      * intros [= <-]. simpl. f_equal. by apply IH.
      * destruct l as [|b l]; [done|]. intros [= -> Hl]. simpl in *.
        apply IH in Hl. by simplify_eq.
    + split; [done|]. destruct l as [|b l]; [done|]. intros [= -> Hl].
      apply IH in Hl. done.
  - split; [done|]. by destruct l.
Qed.

Lemma predicates_from_spec (msg : BroadcastHandler.LiveChatMessage)
      (tokens : TokenBin) (passives : list Passive) (i : nat) :
  (predicates_from i msg tokens passives).1.1
  = (fun p => (predicate p msg tokens (memory p)).1) <$> passives
  /\ length (predicates_from i msg tokens passives).1.2 = length passives
  /\ (predicates_from i msg tokens passives).2
    = Evaluated <$> seq i (length passives).
Proof.
  revert i. induction passives as [|p rest IH]; intros i; [done|].
  simpl. destruct (predicate p msg tokens (memory p)) as [verdict m].
  specialize (IH (S i)).
  destruct (predicates_from (S i) msg tokens rest) as [[verdicts rest'] evs].
  simpl in *. destruct IH as (-> & -> & ->). done.
Qed.




Lemma matched_from_flags (msg : BroadcastHandler.LiveChatMessage)
      (passives : list Passive) (flags : list bool) (i : nat) :
  (fun p => (predicate p msg
                (tokenize (BroadcastHandler.displayMessage msg) prefix)
                (memory p)).1) <$> passives
  = Resolved <$> flags ->
  matched_from i msg passives = true_positions i flags.
Proof.
  revert flags i. induction passives as [|p rest IH]; intros [|b flags] i Heq;
    try done.
  simpl in *. injection Heq as Hp Hrest.
  unfold matches. rewrite Hp. rewrite (IH flags (S i) Hrest). by destruct b.
Qed.





End Listener.

Definition keeps (m : value) : Self :=
  {| its_memory := m; remove_called := false |}.

Definition always (b : bool) : Passive :=
  {| predicate := fun _ _ m => (Resolved b, keeps m);
     invoke := fun _ _ m => (Resolved tt, keeps m);
     memory := Undefined; removed := false |}.

(** A one-shot passive: it matches while its memory holds [true]; its
    handler clears the memory and calls [self.remove()]. *)
Definition once : Passive :=
  {| predicate := fun _ _ m => (Resolved (ToBoolean m), keeps m);
     invoke := fun _ _ _ =>
       (Resolved tt, {| its_memory := Bool false; remove_called := true |});
     memory := Bool true; removed := false |}.


Definition no_tokens (text pattern : string) : TokenBin :=
  {| isCommand := false; command := ""; args := [] |}.



End Passives.

(** ** YukiBuilder: validation and the build entry points *)

Module YukiBuilder.
Import JS.

(** The argument of the [googleConfig] setter; its fields are checked at
    run time. *)
Record GoogleConfig := {
  clientId : value;
  clientSecret : value;
  redirectUri : value
}.

(** A constructed [YoutubeWrapper]. *)
Record YoutubeWrapper := {
  wrapped_clientId : string;
  wrapped_clientSecret : string;
  wrapped_redirectUri : string
}.

(** The listeners the builder puts on the event bus. *)
Inductive Listener :=
| CommandListener
| PassiveListener
| UserListener (tag : string).

(** The builder's fields.  [youtube] is undefined until a well-formed
    google config is assigned; [test] is [yukiConfig.test === true];
    [logger_alert] says whether [this.logger] has an [alert] method: the
    logger the builder makes for itself, a winston logger with the default
    levels, has none, one given through [loggerOverride] may. *)
Record t := {
  youtube : option YoutubeWrapper;
  tokenLoader : value;
  userCacheLoader : value;
  test : bool;
  prefix_source : string;
  commandRecipes : list Commands.recipe;
  commands : gmap string Commands.Command;
  passives : list Passives.Passive;
  eventbus : list Listener;
  usercache : bool;
  logger_alert : bool;
  logged : list (string * string)
}.

(** The state the constructor leaves. *)
Definition new : t :=
  {| youtube := None; tokenLoader := Undefined; userCacheLoader := Undefined;
     test := false; prefix_source := "^([>!]|y!)";
     commandRecipes := []; commands := ∅; passives := []; eventbus := [];
     usercache := false; logger_alert := false; logged := [] |}.

Definition log (lines : list (string * string)) (b : t) : t :=
  {| youtube := youtube b; tokenLoader := tokenLoader b;
     userCacheLoader := userCacheLoader b; test := test b;
     prefix_source := prefix_source b; commandRecipes := commandRecipes b;
     commands := commands b; passives := passives b; eventbus := eventbus b;
     usercache := usercache b; logger_alert := logger_alert b;
     logged := logged b ++ lines |}.

Definition set_youtube (y : YoutubeWrapper) (b : t) : t :=
  {| youtube := Some y; tokenLoader := tokenLoader b;
     userCacheLoader := userCacheLoader b; test := test b;
     prefix_source := prefix_source b; commandRecipes := commandRecipes b;
     commands := commands b; passives := passives b; eventbus := eventbus b;
     usercache := usercache b; logger_alert := logger_alert b;
     logged := logged b |}.

Definition set_tokenLoader (v : value) (b : t) : t :=
  {| youtube := youtube b; tokenLoader := v;
     userCacheLoader := userCacheLoader b; test := test b;
     prefix_source := prefix_source b; commandRecipes := commandRecipes b;
     commands := commands b; passives := passives b; eventbus := eventbus b;
     usercache := usercache b; logger_alert := logger_alert b;
     logged := logged b |}.

Definition set_test (v : bool) (b : t) : t :=
  {| youtube := youtube b; tokenLoader := tokenLoader b;
     userCacheLoader := userCacheLoader b; test := v;
     prefix_source := prefix_source b; commandRecipes := commandRecipes b;
     commands := commands b; passives := passives b; eventbus := eventbus b;
     usercache := usercache b; logger_alert := logger_alert b;
     logged := logged b |}.

Definition set_registry (r : Commands.Registry) (b : t) : t :=
  {| youtube := youtube b; tokenLoader := tokenLoader b;
     userCacheLoader := userCacheLoader b; test := test b;
     prefix_source := prefix_source b; commandRecipes := commandRecipes b;
     commands := Commands.commands r; passives := passives b;
     eventbus := eventbus b; usercache := usercache b;
     logger_alert := logger_alert b;
     logged := Commands.logged r |}.

Definition listen (l : Listener) (b : t) : t :=
  {| youtube := youtube b; tokenLoader := tokenLoader b;
     userCacheLoader := userCacheLoader b; test := test b;
     prefix_source := prefix_source b; commandRecipes := commandRecipes b;
     commands := commands b; passives := passives b;
     eventbus := eventbus b ++ [l]; usercache := usercache b;
     logger_alert := logger_alert b;
     logged := logged b |}.

Definition set_usercache (b : t) : t :=
  {| youtube := youtube b; tokenLoader := tokenLoader b;
     userCacheLoader := userCacheLoader b; test := test b;
     prefix_source := prefix_source b; commandRecipes := commandRecipes b;
     commands := commands b; passives := passives b; eventbus := eventbus b;
     usercache := true; logger_alert := logger_alert b; logged := logged b |}.

(** [passive(predicate, invoke)] and [memoryPassive(seed, predicate,
    invoke)]: the new passive goes to the end of the list. *)
Definition passive (p : Passives.Passive) (b : t) : t :=
  {| youtube := youtube b; tokenLoader := tokenLoader b;
     userCacheLoader := userCacheLoader b; test := test b;
     prefix_source := prefix_source b; commandRecipes := commandRecipes b;
     commands := commands b; passives := passives b ++ [p];
     eventbus := eventbus b; usercache := usercache b;
     logger_alert := logger_alert b; logged := logged b |}.

(** [typeof v !== "string"] with its error line. *)
Definition not_a_string (field : string) (v : value) : list (string * string) :=
  match v with
  | Str _ => []
  | _ => [("error"%string, field +:+ " of google config is not defined properly")]
  end.

(** [set googleConfig(config)] *)
Definition set_googleConfig (config : GoogleConfig) (b : t) : t :=
  let b1 := log (not_a_string "clientId" (clientId config)
                 ++ not_a_string "clientSecret" (clientSecret config)
                 ++ not_a_string "redirectUri" (redirectUri config)) b in
  match clientId config, clientSecret config, redirectUri config with
  | Str id, Str secret, Str uri =>
    set_youtube {| wrapped_clientId := id; wrapped_clientSecret := secret;
                   wrapped_redirectUri := uri |} b1
  | _, _, _ => b1
  end.

(** [source.endsWith("$")] *)
Fixpoint endsWith_dollar (s : string) : bool :=
  match s with
  | EmptyString => false
  | String c EmptyString => Ascii.eqb c (Ascii.ascii_of_nat 36)
  | String _ rest => endsWith_dollar rest
  end.

(** [eventbus.size === 0 && passives.length === 0 && commands.size === 0] *)
Definition nothing_set (b : t) : bool :=
  (length (eventbus b) =? 0)%nat && (length (passives b) =? 0)%nat
  && (size (commands b) =? 0)%nat.

(** [prebuildCheck()]: the verdict and the lines it logs.  The verdict is
    [None] when the check throws: with nothing set it calls
    [this.logger.alert], which is not a function on a logger without that
    level. *)
Definition prebuildCheck (b : t) : option bool * list (string * string) :=
  match youtube b with
  | None =>
    (Some false,
     [("error"%string,
       "google config not set. make sure you've used `builder.googleConfig = {...}`"%string)])
  | Some _ =>
    if negb (is_function (tokenLoader b))
    then (Some false,
          [("error"%string,
            "token loader not set. make sure you've used `builder.tokenLoader = () => ...`"%string)])
    else
      match userCacheLoader b with
      | Undefined | Fun _ =>
        if nothing_set b && negb (logger_alert b)
        then (None, [])
        else
          (Some true,
           (if nothing_set b
            then [("alert"%string, "no commands, passives, or listeners were set"%string)]
            else [])
           ++ (if endsWith_dollar (prefix_source b)
               then [("warn"%string,
                      "prefix ends with '$' which may result in commands not being recognized. Prefixes should resemble this regex /^!/"%string)]
               else []))
      | _ => (Some false, [("error"%string, "user cache loader must be a function"%string)])
      end
  end.

(** [buildCommands()] on the builder's recipes and map. *)
Definition buildCommands (b : t) : t :=
  set_registry
    (Commands.buildCommands (commandRecipes b)
       {| Commands.commands := commands b; Commands.logged := logged b |})
    b.

Definition addCommandListener (b : t) : t :=
  if (size (commands b) =? 0)%nat then b else listen CommandListener b.

Definition addPassiveListener (b : t) : t :=
  if (length (passives b) =? 0)%nat then b else listen PassiveListener b.

(** [prepare()]: [None] when the check threw. *)
Definition prepare (b : t) : option bool * t :=
  let '(verdict, lines) := prebuildCheck b in
  let b1 := log lines b in
  match verdict with
  | None => (None, b1)
  | Some false =>
    (Some false, log [("error"%string, "failed to build yukibot"%string)] b1)
  | Some true =>
    (Some true,
     set_usercache (addPassiveListener (addCommandListener (buildCommands b1))))
  end.

(** A constructed bot: which class, and the builder state it was given. *)
Inductive Bot :=
| Yuki (from : t)
| TestYuki (from : t).

Definition mock : GoogleConfig :=
  {| clientId := Str "mock"; clientSecret := Str "mock"; redirectUri := Str "mock" |}.

(** The first two statements of [buildTest()]: fill the google config and
    the token loader when they are missing. *)
Definition fill_for_test (b : t) : t :=
  let b1 := match youtube b with
            | None => set_googleConfig mock b
            | Some _ => b
            end in
  set_tokenLoader (nullish_or (tokenLoader b1) (Fun "() => undefined")) b1.

(** [buildTest()]: its promise resolves with the bot or with [undefined],
    or rejects when the check threw; and the builder afterwards. *)
Definition buildTest (b : t) : settled (option Bot) * t :=
  match prepare (fill_for_test b) with
  | (None, b1) => (Rejected, b1)
  | (Some false, b1) => (Resolved None, b1)
  | (Some true, b1) =>
    let b2 := set_test true b1 in (Resolved (Some (TestYuki b2)), b2)
  end.

(** [buildYuki()] *)
Definition buildYuki (b : t) : settled (option Bot) * t :=
  if test b
  then buildTest (log [("warn"%string, "running in TEST mode"%string)] b)
  else
    match prepare b with
    | (None, b1) => (Rejected, b1)
    | (Some false, b1) => (Resolved None, b1)
    | (Some true, b1) => (Resolved (Some (Yuki b1)), b1)
    end.

(** A token loader or user cache loader that was given but cannot be
    called. *)
Definition set_but_not_function (v : value) : bool :=
  match v with
  | Undefined | Null | Fun _ => false
  | _ => true
  end.

(** *** Failed validation *)

(** The user cache loader was given and is not a function. *)
Definition bad_userCacheLoader (v : value) : bool :=
  match v with
  | Undefined | Fun _ => false
  | _ => true
  end.

Lemma prebuildCheck_fails_iff (b : t) :
  (prebuildCheck b).1 = Some false
  <-> youtube b = None
      \/ is_function (tokenLoader b) = false
      \/ bad_userCacheLoader (userCacheLoader b) = true.
Proof.
  unfold prebuildCheck.
  destruct (youtube b) as [y|]; [|by split; [left|]].
  destruct (is_function (tokenLoader b)); simpl; [|by split; [right; left|]].
  destruct (userCacheLoader b); simpl;
    destruct (nothing_set b && negb (logger_alert b)); simpl;
    split; try done;
    try (by intros _; right; right);
    by intros [?|[?|?]].
Qed.

(** With nothing set, the builder's own logger makes the check throw
    once the configuration checks have passed. *)
Lemma prebuildCheck_throws_iff (b : t) :
  (prebuildCheck b).1 = None
  <-> is_Some (youtube b)
      /\ is_function (tokenLoader b) = true
      /\ bad_userCacheLoader (userCacheLoader b) = false
      /\ nothing_set b = true /\ logger_alert b = false.
Proof.
  unfold prebuildCheck.
  destruct (youtube b) as [y|];
    [|split; [done|by intros ([? ?] & _)]].
  destruct (is_function (tokenLoader b)); simpl;
    [|split; [done|by intros (_ & ? & _)]].
  destruct (userCacheLoader b); simpl;
    destruct (nothing_set b); destruct (logger_alert b); simpl;
    split; try done; try (by intros (_ & _ & ? & _));
    try (by intros (_ & _ & _ & ? & ?)); by intros _.
Qed.

Lemma prepare_verdict (b : t) : (prepare b).1 = (prebuildCheck b).1.
Proof.
  unfold prepare. by destruct (prebuildCheck b) as [[[|]|] lines].
Qed.

(** A failed [prepare] builds nothing: no command is registered, no
    listener is added, no user cache is made. *)
Lemma prepare_failed_frame (b : t) :
  (prebuildCheck b).1 = Some false ->
  commands (prepare b).2 = commands b
  /\ eventbus (prepare b).2 = eventbus b
  /\ usercache (prepare b).2 = usercache b.
Proof.
  unfold prepare. destruct (prebuildCheck b) as [[[|]|] lines]; simpl; done.
Qed.

Lemma buildTest_result (b : t) :
  (buildTest b).1
  = match (prebuildCheck (fill_for_test b)).1 with
    | Some true => Resolved (Some (TestYuki (buildTest b).2))
    | Some false => Resolved None
    | None => Rejected
    end.
Proof.
  unfold buildTest. rewrite <- prepare_verdict.
  by destruct (prepare (fill_for_test b)) as [[[|]|] b1].
Qed.

Lemma buildYuki_result (b : t) :
  test b = false ->
  (buildYuki b).1
  = match (prebuildCheck b).1 with
    | Some true => Resolved (Some (Yuki (buildYuki b).2))
    | Some false => Resolved None
    | None => Rejected
    end.
Proof.
  intros Htest. unfold buildYuki. rewrite Htest, <- prepare_verdict.
  by destruct (prepare b) as [[[|]|] b1].
Qed.

(** After the fills of [buildTest], only a loader that was given and is
    not a function can fail the check. *)
Lemma prebuildCheck_filled (b : t) :
  (prebuildCheck (fill_for_test b)).1 = Some false
  <-> set_but_not_function (tokenLoader b) = true
      \/ bad_userCacheLoader (userCacheLoader b) = true.
Proof.
  rewrite prebuildCheck_fails_iff. unfold fill_for_test.
  destruct (youtube b) as [y|] eqn:Hy; simpl.
  - rewrite Hy. destruct (tokenLoader b); simpl; intuition congruence.
  - destruct (tokenLoader b); simpl; intuition congruence.
Qed.

(** A builder that was given one passive and nothing else. *)
Definition one_passive : t := passive Passives.once new.

(** Against C7 as stated: on a builder with a passive but no google
    config and no token loader the check returns false, yet [buildTest],
    and [buildYuki] in test mode, construct a bot. *)
Lemma buildTest_without_config_builds :
  youtube one_passive = None
  /\ is_function (tokenLoader one_passive) = false
  /\ (prebuildCheck one_passive).1 = Some false
  /\ (exists bot, (buildTest one_passive).1 = Resolved (Some bot))
  /\ (exists bot, (buildYuki (set_test true one_passive)).1 = Resolved (Some bot)).
Proof.
  split_and!; try done.
  - eexists. rewrite buildTest_result. reflexivity.
  - eexists. unfold buildYuki. cbn [test set_test].
    rewrite buildTest_result. reflexivity.
Qed.

(** C7, amended: whenever the pre-build check returns false, no bot is
    constructed: [buildYuki] outside test mode returns [undefined], in
    particular when the google config has not been set or the token loader
    is not a function, and nothing is registered or wired.  [buildTest],
    and [buildYuki] in test mode, first fill in a mock google config and a
    default token loader when these are missing; they return [undefined]
    exactly when the check returns false after that, which is when a token
    loader or a user cache loader was given that is not a function. *)
Theorem failed_validation_builds_no_bot (b : t) :
  (test b = false ->
   youtube b = None \/ is_function (tokenLoader b) = false ->
   (prebuildCheck b).1 = Some false)
  /\ (test b = false -> (prebuildCheck b).1 = Some false ->
      (buildYuki b).1 = Resolved None
      /\ commands (buildYuki b).2 = commands b
      /\ eventbus (buildYuki b).2 = eventbus b
      /\ usercache (buildYuki b).2 = usercache b)
  /\ ((prebuildCheck (fill_for_test b)).1 = Some false ->
      (buildTest b).1 = Resolved None
      /\ commands (buildTest b).2 = commands b
      /\ eventbus (buildTest b).2 = eventbus b
      /\ usercache (buildTest b).2 = usercache b)
  /\ ((buildTest b).1 = Resolved None
      <-> set_but_not_function (tokenLoader b) = true
          \/ bad_userCacheLoader (userCacheLoader b) = true)
  /\ (test b = true ->
      ((buildYuki b).1 = Resolved None
       <-> set_but_not_function (tokenLoader b) = true
           \/ bad_userCacheLoader (userCacheLoader b) = true)).
Proof.
  split_and!.
  - intros _ Hmissing. apply prebuildCheck_fails_iff. tauto.
  - intros Htest Hfail. rewrite buildYuki_result, Hfail by done.
    split; [done|].
    pose proof (prepare_failed_frame b Hfail) as Hframe.
    pose proof (prepare_verdict b) as Hverdict. rewrite Hfail in Hverdict.
    unfold buildYuki. rewrite Htest.
    destruct (prepare b) as [ok b1]. simpl in *. by subst ok.
  - intros Hfail. rewrite buildTest_result, Hfail. split; [done|].
    pose proof (prepare_failed_frame _ Hfail) as Hframe.
    pose proof (prepare_verdict (fill_for_test b)) as Hverdict.
    rewrite Hfail in Hverdict. unfold buildTest.
    destruct (prepare (fill_for_test b)) as [ok b1]. simpl in *. subst ok.
    simpl. unfold fill_for_test in Hframe.
    by destruct (youtube b).
  - rewrite buildTest_result, <- prebuildCheck_filled.
    by destruct (prebuildCheck (fill_for_test b)).1 as [[|]|].
  - intros Htest. unfold buildYuki. rewrite Htest.
    rewrite buildTest_result.
    change (tokenLoader b) with
      (tokenLoader (log [("warn"%string, "running in TEST mode"%string)] b)).
    change (userCacheLoader b) with
      (userCacheLoader (log [("warn"%string, "running in TEST mode"%string)] b)).
    rewrite <- prebuildCheck_filled.
    by destruct (prebuildCheck (fill_for_test _)).1 as [[|]|].
Qed.

Definition broken_loader : t := set_tokenLoader (Str "token") one_passive.

Lemma failed_validation_builds_no_bot_witness :
  (buildYuki one_passive).1 = Resolved None
  /\ eventbus (buildYuki one_passive).2 = []
  /\ (buildTest broken_loader).1 = Resolved None.
Proof.
  destruct (failed_validation_builds_no_bot one_passive)
    as (Hcheck & Hyuki & _).
  specialize (Hcheck eq_refl (or_introl eq_refl)).
  destruct (Hyuki eq_refl Hcheck) as (Hnone & _ & Hbus & _).
  destruct (failed_validation_builds_no_bot broken_loader)
    as (_ & _ & Htest & _).
  destruct (Htest eq_refl) as (Hnone' & _).
  split; [exact Hnone|]. split; [exact Hbus|exact Hnone'].
Defined.

End YukiBuilder.

(** ** AsyncCache *)

Module AsyncCache.
Import Res.

(** Modelled from the spec: [AsyncCache] is not among the sources; the
    builder only constructs it around a loader.  An entry is empty,
    loading, populated or failed.  [get] on a populated entry answers at
    once; on a loading entry it joins the load in flight; on an empty or
    failed entry it marks the entry loading and invokes the loader, once.
    When the loader settles, the entry becomes populated or failed and
    every waiter is resolved with that outcome. *)
Inductive CacheEntry (V : Type) :=
| Empty
| Loading
| Populated (v : V)
| Failed.
Arguments Empty {V}.
Arguments Loading {V}.
Arguments Populated {V} v.
Arguments Failed {V}.

(** What happens to a cache under cooperative scheduling: a caller asks for
    a key, or the load in flight for a key settles. *)
Inductive Event (K V : Type) :=
| Get (caller : nat) (key : K)
| Settled (key : K) (outcome : Result V).
Arguments Get {K V} caller key.
Arguments Settled {K V} key outcome.

Section Cache.
Context {K V : Type} `{Countable K}.

(** The entries, the callers waiting on each load in flight, the keys the
    loader was invoked with, and the calls resolved so far (caller, key,
    outcome), the last two oldest first. *)
Record t := {
  entries : gmap K (CacheEntry V);
  waiters : gmap K (list nat);
  invoked : list K;
  resolved : list (nat * K * Result V)
}.

Definition new : t :=
  {| entries := ∅; waiters := ∅; invoked := []; resolved := [] |}.

Definition entry (c : t) (k : K) : CacheEntry V :=
  default Empty (entries c !! k).

Definition waiting (c : t) (k : K) : list nat :=
  default [] (waiters c !! k).

Definition start_load (caller : nat) (k : K) (c : t) : t :=
  {| entries := <[k := Loading]> (entries c);
     waiters := <[k := [caller]]> (waiters c);
     invoked := invoked c ++ [k];
     resolved := resolved c |}.

(** [get(key)] up to its first suspension. *)
Definition get (caller : nat) (k : K) (c : t) : t :=
  match entry c k with
  | Populated v =>
    {| entries := entries c; waiters := waiters c; invoked := invoked c;
       resolved := resolved c ++ [(caller, k, successOf v)] |}
  | Loading =>
    {| entries := entries c;
       waiters := <[k := waiting c k ++ [caller]]> (waiters c);
       invoked := invoked c; resolved := resolved c |}
  | Empty | Failed => start_load caller k c
  end.

(** The load in flight for [k] settles with [outcome]. *)
Definition settle (k : K) (outcome : Result V) (c : t) : t :=
  match entry c k with
  | Loading =>
    {| entries := <[k := match outcome with
                         | Success v => Populated v
                         | Failure => Failed
                         end]> (entries c);
       waiters := <[k := []]> (waiters c);
       invoked := invoked c;
       resolved := resolved c ++ ((fun caller => (caller, k, outcome)) <$> waiting c k) |}
  | _ => c
  end.

Definition step (c : t) (e : Event K V) : t :=
  match e with
  | Get caller k => get caller k c
  | Settled k outcome => settle k outcome c
  end.

Definition run (c : t) (es : list (Event K V)) : t := foldl step c es.

Definition key_of (e : Event K V) : K :=
  match e with Get _ k => k | Settled k _ => k end.

(** The callers that ask for [k] in a run of events, in order. *)
Definition callers (k : K) (es : list (Event K V)) : list nat :=
  omap (fun e => match e with
                 | Get caller k' => if decide (k' = k) then Some caller else None
                 | Settled _ _ => None
                 end) es.

(** No load for [k] settles during the events. *)
Definition in_flight (k : K) (es : list (Event K V)) : Prop :=
  Forall (fun e => match e with
                   | Settled k' _ => k' <> k
                   | Get _ _ => True
                   end) es.

(** How often the loader was invoked with [k]. *)
Definition loads (k : K) (c : t) : nat :=
  length (filter (fun k' => k' = k) (invoked c)).

(** The calls for [k] resolved so far. *)
Definition outcomes (k : K) (c : t) : list (nat * Result V) :=
  omap (fun '(caller, k', outcome) =>
          if decide (k' = k) then Some (caller, outcome) else None)
       (resolved c).

(** *** Single flight *)

Lemma omap_snoc {A B} (f : A -> option B) (l : list A) (x : A) :
  omap f (l ++ [x]) = omap f l ++ match f x with Some y => [y] | None => [] end.
Proof.
  rewrite omap_app. simpl. by destruct (f x).
Qed.

Lemma loads_snoc (k k' : K) (ks : list K) :
  length (filter (fun x => x = k) (ks ++ [k']))
  = (length (filter (fun x => x = k) ks) + if decide (k' = k) then 1 else 0)%nat.
Proof.
  rewrite filter_app, length_app. f_equal.
  rewrite filter_cons, filter_nil. by case_decide.
Qed.

(** An event on another key leaves everything about [k] as it was. *)
Lemma step_other (k : K) (e : Event K V) (c : t) :
  key_of e <> k ->
  entry (step c e) k = entry c k
  /\ waiting (step c e) k = waiting c k
  /\ loads k (step c e) = loads k c
  /\ outcomes k (step c e) = outcomes k c.
Proof.
  intros Hne. destruct e as [caller k'|k' outcome]; simpl in *.
  - unfold get, start_load, entry, waiting, loads, outcomes.
    destruct (default Empty (entries c !! k')); simpl;
      rewrite ?lookup_insert_ne by done;
      rewrite ?loads_snoc, ?omap_snoc;
      repeat case_decide; try done; simpl;
      rewrite ?app_nil_r; try done; lia.
  - unfold settle, entry, waiting, loads, outcomes.
    destruct (default Empty (entries c !! k')); simpl;
      rewrite ?lookup_insert_ne by done; try done.
    split_and!; try done.
    rewrite omap_app.
    assert (Hnone : omap (fun '(caller, k'0, outcome0) =>
                       if decide (k'0 = k) then Some (caller, outcome0) else None)
                    ((fun caller => (caller, k', outcome))
                       <$> default [] (waiters c !! k')) = []).
    { induction (default [] (waiters c !! k')) as [|w ws IH]; [done|].
      simpl. by case_decide. }
    by rewrite Hnone, app_nil_r.
Qed.

(** A [get] that finds no load in flight starts one. *)
Lemma get_starts (caller : nat) (k : K) (c : t) :
  entry c k = Empty \/ entry c k = Failed ->
  entry (get caller k c) k = Loading
  /\ waiting (get caller k c) k = [caller]
  /\ loads k (get caller k c) = S (loads k c)
  /\ outcomes k (get caller k c) = outcomes k c.
Proof.
  intros Hidle. unfold get.
  assert (Hget : match entry c k with
                 | Populated v =>
                   {| entries := entries c; waiters := waiters c;
                      invoked := invoked c;
                      resolved := resolved c ++ [(caller, k, successOf v)] |}
                 | Loading =>
                   {| entries := entries c;
                      waiters := <[k := waiting c k ++ [caller]]> (waiters c);
                      invoked := invoked c; resolved := resolved c |}
                 | _ => start_load caller k c
                 end = start_load caller k c).
  { by destruct Hidle as [-> | ->]. }
  rewrite Hget. unfold start_load, entry, waiting, loads, outcomes. simpl.
  rewrite !lookup_insert_eq, loads_snoc.
  rewrite decide_True by done. split_and!; try done. lia.
Qed.

(** A [get] that finds a load in flight joins it. *)
Lemma get_joins (caller : nat) (k : K) (c : t) :
  entry c k = Loading ->
  entry (get caller k c) k = Loading
  /\ waiting (get caller k c) k = waiting c k ++ [caller]
  /\ loads k (get caller k c) = loads k c
  /\ outcomes k (get caller k c) = outcomes k c.
Proof.
  intros Hloading. unfold get. rewrite Hloading.
  unfold entry, waiting, loads, outcomes in *. simpl.
  by rewrite lookup_insert_eq.
Qed.

(** When the load settles, every waiter gets its outcome. *)
Lemma settle_resolves (k : K) (outcome : Result V) (c : t) :
  entry c k = Loading ->
  entry (settle k outcome c) k
  = match outcome with Success v => Populated v | Failure => Failed end
  /\ waiting (settle k outcome c) k = []
  /\ loads k (settle k outcome c) = loads k c
  /\ outcomes k (settle k outcome c)
    = outcomes k c ++ ((fun caller => (caller, outcome)) <$> waiting c k).
Proof.
  intros Hloading. unfold settle. rewrite Hloading.
  unfold entry, waiting, loads, outcomes. simpl.
  rewrite !lookup_insert_eq. split_and!; try done.
  rewrite omap_app. f_equal.
  induction (default [] (waiters c !! k)) as [|w ws IH]; [done|].
  csimpl. rewrite decide_True by done. by rewrite IH.
Qed.

Lemma callers_cons (k : K) (e : Event K V) (es : list (Event K V)) :
  callers k (e :: es)
  = match e with
    | Get caller k' => if decide (k' = k) then caller :: callers k es
                       else callers k es
    | Settled _ _ => callers k es
    end.
Proof.
  unfold callers. simpl. destruct e as [caller k'|k' outcome]; [|done].
  by case_decide.
Qed.

(** While the load is in flight, later callers queue behind it. *)
Lemma run_loading (k : K) (es : list (Event K V)) (c : t) :
  in_flight k es -> entry c k = Loading ->
  entry (run c es) k = Loading
  /\ waiting (run c es) k = waiting c k ++ callers k es
  /\ loads k (run c es) = loads k c
  /\ outcomes k (run c es) = outcomes k c.
Proof.
  revert c. induction es as [|e es IH]; intros c Hfl Hloading.
  - simpl. by rewrite app_nil_r.
  - apply Forall_cons in Hfl as [He Hfl]. rewrite callers_cons.
    change (run c (e :: es)) with (run (step c e) es).
    destruct (decide (key_of e = k)) as [Hk|Hk].
    + destruct e as [caller k'|k' outcome]; simpl in Hk; subst k'; [|done].
      destruct (get_joins caller k c Hloading) as (He1 & Hw1 & Hl1 & Ho1).
      destruct (IH (step c (Get caller k)) Hfl He1) as (He2 & Hw2 & Hl2 & Ho2).
      rewrite decide_True by done. simpl in *.
      rewrite He2, Hw2, Hl2, Ho2, Hw1, Hl1, Ho1.
      by rewrite <- app_assoc.
    + destruct (step_other k e c Hk) as (He1 & Hw1 & Hl1 & Ho1).
      rewrite <- He1 in Hloading.
      destruct (IH (step c e) Hfl Hloading) as (He2 & Hw2 & Hl2 & Ho2).
      rewrite He2, Hw2, Hl2, Ho2, Hw1, Hl1, Ho1.
      destruct e as [caller k'|k' outcome]; simpl in Hk; [|done].
      by rewrite decide_False by done.
Qed.

(** From an idle entry, the first caller starts the one load and the rest
    join it. *)
Lemma run_idle (k : K) (es : list (Event K V)) (c : t) :
  in_flight k es -> entry c k = Empty \/ entry c k = Failed ->
  callers k es <> [] ->
  entry (run c es) k = Loading
  /\ waiting (run c es) k = callers k es
  /\ loads k (run c es) = S (loads k c)
  /\ outcomes k (run c es) = outcomes k c.
Proof.
  revert c. induction es as [|e es IH]; intros c Hfl Hidle Hcallers; [done|].
  apply Forall_cons in Hfl as [He Hfl]. rewrite callers_cons in *.
  change (run c (e :: es)) with (run (step c e) es).
  destruct (decide (key_of e = k)) as [Hk|Hk].
  - destruct e as [caller k'|k' outcome]; simpl in Hk; subst k'; [|done].
    destruct (get_starts caller k c Hidle) as (He1 & Hw1 & Hl1 & Ho1).
    destruct (run_loading k es (step c (Get caller k)) Hfl He1)
      as (He2 & Hw2 & Hl2 & Ho2).
    rewrite decide_True by done. simpl in *.
    by rewrite He2, Hw2, Hl2, Ho2, Hw1, Hl1, Ho1.
  - destruct (step_other k e c Hk) as (He1 & Hw1 & Hl1 & Ho1).
    rewrite <- He1 in Hidle.
    assert (Hrest : callers k es <> []).
    { destruct e as [caller k'|k' outcome]; simpl in Hk; [|done].
      by rewrite decide_False in Hcallers by done. }
    destruct (IH (step c e) Hfl Hidle Hrest) as (He2 & Hw2 & Hl2 & Ho2).
    rewrite He2, Hw2, Hl2, Ho2, Hl1, Ho1.
    destruct e as [caller k'|k' outcome]; simpl in Hk; [|done].
    by rewrite decide_False by done.
Qed.

(** C4: for every key [k] and every [N >= 1], when [N] calls of [get k]
    arrive while there is no entry for [k] and before the load settles
    (other keys' events may come in between), the loader is invoked with
    [k] exactly once, and once it settles all [N] calls are resolved, each
    with the loader's outcome. *)
Theorem single_flight (k : K) (N : nat) (es : list (Event K V))
        (outcome : Result V) (c : t) :
  entries c !! k = None ->
  in_flight k es ->
  length (callers k es) = N -> (1 <= N)%nat ->
  loads k (run c (es ++ [Settled k outcome])) = S (loads k c)
  /\ outcomes k (run c (es ++ [Settled k outcome]))
    = outcomes k c ++ ((fun caller => (caller, outcome)) <$> callers k es)
  /\ length ((fun caller => (caller, outcome)) <$> callers k es) = N
  /\ Forall (fun answer => answer.2 = outcome)
       ((fun caller => (caller, outcome)) <$> callers k es).
Proof.
  intros Hnone Hfl Hlen HN.
  assert (Hidle : entry c k = Empty \/ entry c k = Failed).
  { left. unfold entry. by rewrite Hnone. }
  assert (Hcallers : callers k es <> []).
  { intros Hnil. rewrite Hnil in Hlen. simpl in Hlen. lia. }
  destruct (run_idle k es c Hfl Hidle Hcallers) as (He & Hw & Hl & Ho).
  unfold run in *. rewrite foldl_app. simpl.
  destruct (settle_resolves k outcome (foldl step c es) He)
    as (_ & _ & Hl' & Ho').
  rewrite Hl', Ho', Hl, Ho, Hw. split_and!; try done.
  - by rewrite length_fmap.
  - apply Forall_fmap. by apply Forall_true.
Qed.

End Cache.

Arguments t K V {_ _}.

Definition three_callers : list (Event string string) :=
  [Get 1 "user:42"; Get 2 "user:7"; Get 3 "user:42"; Get 4 "user:42"]%string.

Lemma single_flight_witness :
  loads "user:42"%string
    (run new (three_callers ++ [Settled "user:42"%string (Success "ann"%string)]))
  = 1%nat
  /\ outcomes "user:42"%string
      (run new (three_callers ++ [Settled "user:42"%string (Success "ann"%string)]))
    = [(1%nat, Success "ann"%string); (3%nat, Success "ann"%string);
       (4%nat, Success "ann"%string)].
Proof.
  assert (Hfl : in_flight "user:42"%string three_callers)
    by (repeat constructor).
  assert (Hlen : length (callers "user:42"%string three_callers) = 3%nat)
    by reflexivity.
  destruct (single_flight "user:42"%string 3 three_callers
              (Success "ann"%string) new (lookup_empty _) Hfl Hlen
              ltac:(lia)) as (Hl & Ho & _).
  split; [rewrite Hl|rewrite Ho]; vm_compute; reflexivity.
Defined.

End AsyncCache.

(** ** More on BroadcastHandler: polling, paging and the call log *)

Module Polling.
Import JS Res BroadcastHandler.

(** The entry a fetch puts at the head of [calls]. *)
Definition call (ty : string) (ok : bool) (now : Z) : ApiCall :=
  {| call_type := ty; call_success := ok; call_time := now |}.

Lemma slice_segment {A} (l : list A) (start end_ : Z) :
  exists before after, l = before ++ slice l start end_ ++ after.
Proof.
  unfold slice.
  set (k := Z.to_nat (relative_index (Z.of_nat (length l)) start)).
  set (n := Z.to_nat (relative_index (Z.of_nat (length l)) end_
                      - relative_index (Z.of_nat (length l)) start)).
  exists (take k l), (drop n (drop k l)).
  by rewrite (take_drop n (drop k l)), take_drop.
Qed.

Lemma fetchChatMessages_resolved (client : Youtube) (now : Z) (h : t)
      (data : ListData LiveChatMessage) (newMessages : list LiveChatMessage) :
  liveChatMessages_list client (liveChatID h) (chatNextPage h) = Resolved data ->
  items data = Some newMessages ->
  fetchChatMessages client now h
  = (successOf newMessages,
     unshift_call "list/message" true now
       (push_chatHistory newMessages
          (set_chatNextPage (nextPageToken data)
             (log "http" "fetching chat messages" h)))).
Proof.
  intros Hres Hitems. unfold fetchChatMessages, fetchChatMessages_try.
  change (liveChatID (log "http" "fetching chat messages" h))
    with (liveChatID h).
  change (chatNextPage (log "http" "fetching chat messages" h))
    with (chatNextPage h).
  by rewrite Hres, Hitems.
Qed.

(** X1: a successful chat poll returns the new messages, appends them to
    the history in the order received and stores the response's page
    token; paging from the old end of the history then yields exactly the
    new messages. *)
Theorem fetchChatMessages_appends (client : Youtube) (now : Z) (h : t)
        (data : ListData LiveChatMessage) (newMessages : list LiveChatMessage) :
  liveChatMessages_list client (liveChatID h) (chatNextPage h) = Resolved data ->
  items data = Some newMessages ->
  (fetchChatMessages client now h).1 = successOf newMessages
  /\ chatHistory (fetchChatMessages client now h).2 = chatHistory h ++ newMessages
  /\ chatNextPage (fetchChatMessages client now h).2 = nextPageToken data
  /\ _broadcast (fetchChatMessages client now h).2 = _broadcast h
  /\ chatPage (Z.of_nat (length (chatHistory h))) 0
       (fetchChatMessages client now h).2 = newMessages.
Proof.
  intros Hres Hitems.
  rewrite (fetchChatMessages_resolved client now h data newMessages Hres Hitems).
  split_and!; try done.
  unfold chatPage. cbn [fst snd chatHistory unshift_call push_chatHistory
                        set_chatNextPage log Z.ltb Z.compare].
  rewrite slice_to_end by lia.
  rewrite Nat2Z.id. by rewrite drop_app_length.
Qed.

Definition chatty : Youtube :=
  {| liveBroadcasts_list :=
       Resolved {| items := Some [{| broadcastId := "b2";
                                     snippet_liveChatId := Some "chat2"%string |};
                                  {| broadcastId := "b3";
                                     snippet_liveChatId := None |}];
                   nextPageToken := None |};
     liveChatMessages_list := fun _ page =>
       match page with
       | Some "p0"%string =>
         Resolved {| items := Some [msg "yo" "bob" "u2"; msg "hey" "cy" "u3"];
                     nextPageToken := Some "p1"%string |}
       | Some "p1"%string =>
         Resolved {| items := Some [msg "bye" "bob" "u2"];
                     nextPageToken := Some "p2"%string |}
       | _ => Rejected
       end;
     liveChatMessages_insert := fun _ text => Resolved (msg text "yuki" "bot") |}.

Lemma fetchChatMessages_appends_witness :
  chatHistory (fetchChatMessages chatty 3 live).2
  = [msg "hi" "ann" "u1"; msg "yo" "bob" "u2"; msg "hey" "cy" "u3"]
  /\ chatPage 1 0 (fetchChatMessages chatty 3 live).2
    = [msg "yo" "bob" "u2"; msg "hey" "cy" "u3"].
Proof.
  destruct (fetchChatMessages_appends chatty 3 live
              {| items := Some [msg "yo" "bob" "u2"; msg "hey" "cy" "u3"];
                 nextPageToken := Some "p1"%string |}
              [msg "yo" "bob" "u2"; msg "hey" "cy" "u3"] eq_refl eq_refl)
    as (_ & Hhist & _ & _ & Hpage).
  split; [exact Hhist|exact Hpage].
Defined.

(** X2: pagination continues where the last successful poll stopped: the
    second poll asks with the token the first one stored, and the history
    holds both batches in order. *)
Theorem polls_chain (client : Youtube) (now1 now2 : Z) (h : t)
        (d1 d2 : ListData LiveChatMessage) (m1 m2 : list LiveChatMessage) :
  liveChatMessages_list client (liveChatID h) (chatNextPage h) = Resolved d1 ->
  items d1 = Some m1 ->
  liveChatMessages_list client (liveChatID h) (nextPageToken d1) = Resolved d2 ->
  items d2 = Some m2 ->
  (fetchChatMessages client now2 (fetchChatMessages client now1 h).2).1
  = successOf m2
  /\ chatHistory (fetchChatMessages client now2 (fetchChatMessages client now1 h).2).2
    = chatHistory h ++ m1 ++ m2
  /\ chatNextPage (fetchChatMessages client now2 (fetchChatMessages client now1 h).2).2
    = nextPageToken d2.
Proof.
  intros H1 Hi1 H2 Hi2.
  rewrite (fetchChatMessages_resolved client now1 h d1 m1 H1 Hi1).
  cbn [snd].
  rewrite (fetchChatMessages_resolved client now2
             (unshift_call "list/message" true now1
                (push_chatHistory m1
                   (set_chatNextPage (nextPageToken d1)
                      (log "http" "fetching chat messages" h))))
             d2 m2 H2 Hi2).
  split_and!; try done. simpl. by rewrite app_assoc.
Qed.

Lemma polls_chain_witness :
  chatHistory (fetchChatMessages chatty 4 (fetchChatMessages chatty 3 live).2).2
  = [msg "hi" "ann" "u1"; msg "yo" "bob" "u2"; msg "hey" "cy" "u3";
     msg "bye" "bob" "u2"]
  /\ chatNextPage (fetchChatMessages chatty 4 (fetchChatMessages chatty 3 live).2).2
    = Some "p2"%string.
Proof.
  destruct (polls_chain chatty 3 4 live
              {| items := Some [msg "yo" "bob" "u2"; msg "hey" "cy" "u3"];
                 nextPageToken := Some "p1"%string |}
              {| items := Some [msg "bye" "bob" "u2"];
                 nextPageToken := Some "p2"%string |}
              [msg "yo" "bob" "u2"; msg "hey" "cy" "u3"] [msg "bye" "bob" "u2"]
              eq_refl eq_refl eq_refl eq_refl) as (_ & Hhist & Hpage).
  split; [exact Hhist|exact Hpage].
Defined.

(** X3: a poll whose remote call fails is retried unchanged: the next
    poll sends the same request and ends with the same result, history and
    cursor as if the failed poll had not happened; only the call log and
    the logger keep a trace of it. *)
Theorem failed_poll_is_retried (failing client : Youtube) (now1 now2 : Z) (h : t) :
  liveChatMessages_list failing (liveChatID h) (chatNextPage h) = Rejected ->
  (fetchChatMessages client now2 (fetchChatMessages failing now1 h).2).1
  = (fetchChatMessages client now2 h).1
  /\ chatHistory (fetchChatMessages client now2 (fetchChatMessages failing now1 h).2).2
    = chatHistory (fetchChatMessages client now2 h).2
  /\ chatNextPage (fetchChatMessages client now2 (fetchChatMessages failing now1 h).2).2
    = chatNextPage (fetchChatMessages client now2 h).2
  /\ calls (fetchChatMessages client now2 (fetchChatMessages failing now1 h).2).2
    = call "list/message" (success (fetchChatMessages client now2 h).1) now2
        :: call "list/message" false now1 :: calls h.
Proof.
  intros Hrej.
  assert (H1 : fetchChatMessages failing now1 h
               = (failure,
                  unshift_call "list/message" false now1
                    (log "error" "failed to fetch chat messages"
                       (log "http" "fetching chat messages" h)))).
  { unfold fetchChatMessages, fetchChatMessages_try.
    change (liveChatID (log "http" "fetching chat messages" h))
      with (liveChatID h).
    change (chatNextPage (log "http" "fetching chat messages" h))
      with (chatNextPage h).
    by rewrite Hrej. }
  rewrite H1. cbn [snd].
  unfold fetchChatMessages, fetchChatMessages_try, liveChatID.
  cbn [_broadcast chatNextPage unshift_call log].
  destruct (liveChatMessages_list client _ (chatNextPage h))
    as [[[its|] token]|]; done.
Qed.

Lemma failed_poll_is_retried_witness :
  chatHistory (fetchChatMessages chatty 4 (fetchChatMessages down 3 live).2).2
  = chatHistory (fetchChatMessages chatty 4 live).2.
Proof.
  apply (failed_poll_is_retried down chatty 3 4 live eq_refl).
Defined.

(** X4: every fetch, whatever its outcome, puts exactly one record at the
    head of [calls], of its own type, stamped with the time of the call and
    flagged with the success of the result it returns; [sendMessage]
    records nothing. *)
Theorem fetches_record_calls (client : Youtube) (now : Z) (h : t) :
  calls (fetchBroadcast client now h).2
  = call "list/broadcast" (success (fetchBroadcast client now h).1) now :: calls h
  /\ calls (fetchChatMessages client now h).2
    = call "list/message" (success (fetchChatMessages client now h).1) now
        :: calls h
  /\ (forall text, calls (sendMessage client text h).2 = calls h).
Proof.
  split_and!.
  - unfold fetchBroadcast, fetchBroadcast_try.
    destruct (liveBroadcasts_list client) as [[[[|first rest]|] token]|]; done.
  - unfold fetchChatMessages, fetchChatMessages_try.
    destruct (liveChatMessages_list client _ _) as [[[its|] token]|]; done.
  - intros text. unfold sendMessage.
    by destruct (liveChatMessages_insert client _ _).
Qed.

(** X5: [fetchBroadcast] succeeds exactly when the remote call resolves
    with at least one item; the first item is then returned and held,
    whatever follows it, and its chat id is the one later chat polls use. *)
Theorem fetchBroadcast_takes_first (client : Youtube) (now : Z) (h : t)
        (b : LiveBroadcast) :
  ((fetchBroadcast client now h).1 = successOf b
   <-> exists others token,
         liveBroadcasts_list client
         = Resolved {| items := Some (b :: others); nextPageToken := token |})
  /\ ((fetchBroadcast client now h).1 = successOf b ->
      _broadcast (fetchBroadcast client now h).2 = Some b
      /\ liveChatID (fetchBroadcast client now h).2 = snippet_liveChatId b).
Proof.
  unfold fetchBroadcast, fetchBroadcast_try, liveChatID.
  destruct (liveBroadcasts_list client) as [[[[|first rest]|] token]|]; cbn.
  - split; [split|]; [done| |done]. by intros (others & token' & Heq).
  - split; [split|].
    + intros [= ->]. by exists rest, token.
    + intros (others & token' & Heq). by simplify_eq.
    + by intros [= ->].
  - split; [split|]; [done| |done]. by intros (others & token' & Heq).
  - split; [split|]; [done| |done]. by intros (others & token' & Heq).
Qed.

Lemma fetchBroadcast_takes_first_witness :
  _broadcast (fetchBroadcast chatty 5 live).2
  = Some {| broadcastId := "b2"; snippet_liveChatId := Some "chat2"%string |}
  /\ liveChatID (fetchBroadcast chatty 5 live).2 = Some "chat2"%string.
Proof.
  apply (proj2 (fetchBroadcast_takes_first chatty 5 live
                  {| broadcastId := "b2";
                     snippet_liveChatId := Some "chat2"%string |}) eq_refl).
Defined.

(** X6: whatever the index and the maximum (negative, zero or past the
    end), the page is a run of consecutive messages of the history: nothing
    is invented, repeated or reordered. *)
Theorem chatPage_is_segment (index max : Z) (h : t) :
  exists before after, chatHistory h = before ++ chatPage index max h ++ after.
Proof. unfold chatPage. apply slice_segment. Qed.

(** X7: a negative index counts from the end of the history: with the
    default maximum, [chatPage (-k)] is the last [k] messages (the whole
    history when it is shorter than [k]); an index at or past the end
    gives the empty page. *)
Theorem chatPage_from_the_end (k : Z) (h : t) :
  0 < k ->
  chatPage (- k) 0 h
  = drop (Z.to_nat (Z.of_nat (length (chatHistory h)) - k)) (chatHistory h)
  /\ (forall max, chatPage (Z.of_nat (length (chatHistory h)) + k - 1) max h = []).
Proof.
  intros Hk. split.
  - unfold chatPage, slice, relative_index. cbn [Z.ltb Z.compare].
    destruct (Z.ltb_spec (- k) 0); [|lia].
    destruct (Z.ltb_spec (Z.of_nat (length (chatHistory h))) 0); [lia|].
    rewrite Z.min_id.
    destruct (Z.max_spec (Z.of_nat (length (chatHistory h)) + - k) 0)
      as [[Hlt ->]|[Hge ->]].
    + rewrite Z.sub_0_r, Nat2Z.id. simpl.
      replace (Z.to_nat (Z.of_nat (length (chatHistory h)) - k)) with 0%nat by lia.
      simpl. by rewrite firstn_all.
    + replace (Z.of_nat (length (chatHistory h)) + - k)
        with (Z.of_nat (length (chatHistory h)) - k) by lia.
      apply take_ge. rewrite length_drop. lia.
  - intros max. unfold chatPage, slice, relative_index.
    set (len := Z.of_nat (length (chatHistory h))).
    destruct (Z.ltb_spec (len + k - 1) 0); [lia|].
    rewrite (Z.min_r (len + k - 1) len) by lia.
    rewrite drop_ge by lia. apply take_nil.
Qed.

Lemma chatPage_from_the_end_witness :
  chatPage (-2) 0 five_messages = [msg "d" "dee" "u4"; msg "e" "eve" "u5"]
  /\ chatPage 5 3 five_messages = [].
Proof.
  assert (Hk : 0 < 2) by lia.
  destruct (chatPage_from_the_end 2 five_messages Hk) as [Hlast _].
  assert (Hk1 : 0 < 1) by lia.
  destruct (chatPage_from_the_end 1 five_messages Hk1) as [_ Hpast].
  split; [exact Hlast|exact (Hpast 3)].
Defined.

(** X8: [sendMessage] succeeds exactly when the remote insert resolves,
    and returns the message the remote answered; in either case the held
    broadcast, the chat history, the cursor and the call log are as before:
    a sent message enters the history only through a later poll. *)
Theorem sendMessage_frame (client : Youtube) (text : string) (h : t) :
  (forall sent,
     (sendMessage client text h).1 = successOf sent
     <-> liveChatMessages_insert client (liveChatID h) text = Resolved sent)
  /\ ((sendMessage client text h).1 = failure
      <-> liveChatMessages_insert client (liveChatID h) text = Rejected)
  /\ fields (sendMessage client text h).2 = fields h.
Proof.
  unfold sendMessage.
  change (liveChatID (log "http" "sending chat message" h)) with (liveChatID h).
  destruct (liveChatMessages_insert client (liveChatID h) text) as [sent|];
    split_and!; try done; intros sent'; split; by intros [= ->].
Qed.

End Polling.

(** ** More on the money system: reads and batches *)

Module Ledger.
Import JS MoneySystem.

(** The deltas a batch holds for one user, in order. *)
Definition deltas (uid : string) (map : list (string * Z)) : list Z :=
  omap (fun '(u, amount) => if decide (u = uid) then Some amount else None) map.

(** One user's entry after a run of deltas: each delta is added to the
    balance [getWallet] reports at that moment. *)
Definition entry_through (entry : option Z) (ds : list Z) : option Z :=
  foldl (fun e d => Some (wallet_of e + d)) entry ds.

Definition total (ds : list Z) : Z := foldr Z.add 0 ds.

(** No balance but the last one is exactly zero as the deltas go by. *)
Fixpoint never_zero_on_the_way (start : Z) (ds : list Z) : Prop :=
  match ds with
  | [] => True
  | d :: rest =>
    match rest with
    | [] => True
    | _ :: _ => start + d <> 0 /\ never_zero_on_the_way (start + d) rest
    end
  end.

Lemma entry_after_deltas (uid : string) (map : list (string * Z)) (entry : option Z) :
  entry_after uid map entry = entry_through entry (deltas uid map).
Proof.
  revert entry. induction map as [|[u amount] rest IH]; intros entry; [done|].
  unfold deltas in *. cbn [entry_after omap list_omap].
  case_decide; [|by rewrite IH].
  rewrite IH. done.
Qed.

Lemma wallet_of_nonzero (entry : option Z) : wallet_of entry <> 0.
Proof.
  unfold wallet_of, startingWallet.
  destruct entry as [n|]; [|done].
  by destruct (Z.eqb_spec n 0).
Qed.

Lemma entry_through_total (start : Z) (ds : list Z) :
  start <> 0 -> ds <> [] -> never_zero_on_the_way start ds ->
  entry_through (Some start) ds = Some (start + total ds).
Proof.
  revert start. induction ds as [|d rest IH]; intros start Hstart Hne Hway;
    [done|].
  unfold entry_through in *. cbn [foldl total foldr].
  assert (Hw : wallet_of (Some start) = start).
  { unfold wallet_of. by destruct (Z.eqb_spec start 0). }
  rewrite Hw. destruct rest as [|d' rest'].
  - simpl. f_equal. lia.
  - destruct Hway as [Hnz Hway].
    rewrite (IH (start + d) Hnz ltac:(done) Hway).
    f_equal. unfold total. simpl. lia.
Qed.

(** X9: [getWallet] never reports a balance of zero, it leaves an entry
    holding the value it returns, and reading again changes nothing: the
    second read returns the same value and the same ledger. *)
Theorem getWallet_settles (uid : string) (bank : gmap string Z) :
  (getWallet uid bank).1 <> 0
  /\ (getWallet uid bank).2 !! uid = Some (getWallet uid bank).1
  /\ getWallet uid (getWallet uid bank).2 = getWallet uid bank.
Proof.
  destruct (getWallet_value uid bank) as (Hval & Hentry & _).
  pose proof (wallet_of_nonzero (bank !! uid)) as Hnz.
  rewrite Hval. split_and!; [done|done|].
  rewrite (getWallet_nonzero uid _ _ Hentry Hnz).
  rewrite <- Hval. by destruct (getWallet uid bank).
Qed.

(** X10: a batch touches only the users it names: every other entry is as
    before; every named user has an entry afterwards, even for a delta of
    zero; and an empty batch changes no balance but still writes the
    ledger. *)
Theorem transactionBatch_scope (file : File) (map : list (string * Z)) (w : World) :
  (forall uid, uid ∉ map.*1 ->
     bank (transactionBatch file map w).2 !! uid = bank w !! uid)
  /\ (forall uid, uid ∈ map.*1 ->
        is_Some (bank (transactionBatch file map w).2 !! uid))
  /\ bank (transactionBatch file [] w).2 = bank w
  /\ (file_write file bankFile (bank w) = Resolved tt ->
      stored (transactionBatch file [] w).2 = Some (bank w)).
Proof.
  split_and!.
  - intros uid Hout. rewrite transactionBatch_bank, applied_lookup.
    generalize (bank w !! uid) as entry.
    induction map as [|[u amount] rest IH]; intros entry; [done|].
    cbn [entry_after]. rewrite fmap_cons in Hout. cbn in Hout.
    apply not_elem_of_cons in Hout as [Hne Hout].
    rewrite decide_False by done. by apply IH.
  - intros uid Hin. rewrite transactionBatch_bank, applied_lookup.
    generalize (bank w !! uid) as entry.
    induction map as [|[u amount] rest IH]; intros entry.
    + by apply not_elem_of_nil in Hin.
    + cbn [entry_after]. rewrite fmap_cons in Hin. cbn in Hin.
      case_decide as Hu.
      * subst u. clear IH Hin.
        generalize (wallet_of entry + amount) as n.
        induction rest as [|[u' a'] rest' IH']; intros n; [by eexists|].
        cbn [entry_after]. case_decide; apply IH'.
      * apply elem_of_cons in Hin as [Heq|Hin]; [done|]. by apply IH.
  - by rewrite transactionBatch_bank.
  - intros Hw. rewrite transactionBatch_unfold. unfold saveBank, applied.
    cbn [foldl bank]. by rewrite Hw.
Qed.

(** X11: debits and credits add up: when a batch holds deltas for a user
    and none of the balances on the way, except possibly the last, is
    exactly zero, the user's stored balance ends as the balance [getWallet]
    reported before the batch plus the sum of those deltas. *)
Theorem transactionBatch_adds_up (file : File) (map : list (string * Z))
        (w : World) (uid : string) :
  deltas uid map <> [] ->
  never_zero_on_the_way (wallet_of (bank w !! uid)) (deltas uid map) ->
  bank (transactionBatch file map w).2 !! uid
  = Some (wallet_of (bank w !! uid) + total (deltas uid map)).
Proof.
  intros Hsome Hway.
  rewrite transactionBatch_bank, applied_lookup, entry_after_deltas.
  pose proof (wallet_of_nonzero (bank w !! uid)) as Hnz.
  rewrite <- (entry_through_total _ _ Hnz Hsome Hway).
  destruct (deltas uid map) as [|d rest]; [done|].
  unfold entry_through. cbn [foldl].
  assert (Hidem : wallet_of (Some (wallet_of (bank w !! uid)))
                  = wallet_of (bank w !! uid)).
  { clear -Hnz. revert Hnz. generalize (wallet_of (bank w !! uid)) as n.
    intros n Hn. unfold wallet_of. by destruct (Z.eqb_spec n 0). }
  by rewrite Hidem.
Qed.

Lemma transactionBatch_adds_up_witness :
  bank (transactionBatch writable
          [("u1"%string, -10); ("u2"%string, 7); ("u1"%string, 20)]
          saved_fifty).2 !! "u1"%string
  = Some 60.
Proof.
  assert (Hsome : deltas "u1" [("u1"%string, -10); ("u2"%string, 7);
                               ("u1"%string, 20)] <> []) by done.
  assert (Hway : never_zero_on_the_way
                   (wallet_of (bank saved_fifty !! "u1"%string))
                   (deltas "u1" [("u1"%string, -10); ("u2"%string, 7);
                                 ("u1"%string, 20)])) by (split; done).
  rewrite (transactionBatch_adds_up writable _ saved_fifty "u1" Hsome Hway).
  reflexivity.
Defined.

(** X12: only the order of one user's own deltas matters: two batches
    that hold, for every user, the same deltas in the same order leave the
    same ledger in memory, however the users are interleaved. *)
Theorem transactionBatch_interleaving (file1 file2 : File)
        (map1 map2 : list (string * Z)) (w : World) :
  (forall uid, deltas uid map1 = deltas uid map2) ->
  bank (transactionBatch file1 map1 w).2 = bank (transactionBatch file2 map2 w).2.
Proof.
  intros Hsame. rewrite !transactionBatch_bank. apply map_eq. intros uid.
  by rewrite !applied_lookup, !entry_after_deltas, Hsame.
Qed.

Lemma transactionBatch_interleaving_witness :
  bank (transactionBatch writable [("u1"%string, 5); ("u2"%string, -3)]
          saved_fifty).2
  = bank (transactionBatch unwritable [("u2"%string, -3); ("u1"%string, 5)]
            saved_fifty).2.
Proof.
  apply transactionBatch_interleaving.
  intros uid. unfold deltas. cbn [omap list_omap].
  destruct (decide ("u1"%string = uid)) as [H1|H1];
    destruct (decide ("u2"%string = uid)) as [H2|H2]; try done.
  rewrite <- H1 in H2. discriminate H2.
Defined.

End Ledger.

(** ** The leaderboard route *)

Module Leaderboard.
Import JS.

(** [Schema$Channel]: the fields the route reads, each optional as in the
    API schema. *)
Record Snippet := {
  title : option string
}.

Record Channel := {
  id : option string;
  snippet : option Snippet
}.

(** [x || "unknown"] on an optional string: a missing or empty title is
    falsy. *)
Definition or_unknown (t : option string) : string :=
  match t with
  | Some s => if ToBoolean (Str s) then s else "unknown"
  | None => "unknown"
  end.

(** [channels.find(c => c.id === id)?.snippet.title || "unknown"]; [None]
    when reading [title] of a missing snippet throws. *)
Definition display_name (channels : list Channel) (uid : string) : option string :=
  match list_find (fun c => id c = Some uid) channels with
  | None => Some (or_unknown None)
  | Some (_, c) =>
    match snippet c with
    | None => None
    | Some sn => Some (or_unknown (title sn))
    end
  end.

(** [lb.map(([id, val]) => [..., val])] *)
Definition hydrate (channels : list Channel) (lb : list (string * Z))
  : option (list (string * Z)) :=
  mapM (fun '(uid, val) => name ← display_name channels uid; Some (name, val)) lb.

(** How the handler of [GET /leaderboard] ends. *)
Inductive response :=
| Sent (body : list (string * Z))
| Failed.

(** The handler; [getLeaderboard] and [getChannels] are the money
    system's and the chat module's, which are not among the sources. *)
Definition leaderboard (getLeaderboard : list (string * Z))
           (getChannels : list string -> settled (list Channel)) : response :=
  let lb := getLeaderboard in
  match getChannels (lb.*1) with
  | Rejected => Failed
  | Resolved channels =>
    match hydrate channels lb with
    | Some hydratedLB => Sent hydratedLB
    | None => Failed
    end
  end.

Lemma hydrate_values (channels : list Channel) (lb body : list (string * Z)) :
  hydrate channels lb = Some body ->
  body.*2 = lb.*2
  /\ Forall2 (fun row out => display_name channels row.1 = Some out.1) lb body.
Proof.
  unfold hydrate. intros Hbody. apply mapM_Some in Hbody.
  induction Hbody as [|[uid val] [name val'] rest body' Hrow Hrest [Hvals Hnames]];
    [done|].
  destruct (display_name channels uid) as [name0|] eqn:Hname; [|done].
  cbn in Hrow. simplify_eq.
  split; [by rewrite !fmap_cons, Hvals|].
  by constructor.
Qed.

(** X14: when the leaderboard is sent, it has one row per ranked user, in
    the ranking's order and with the ranking's values; only the ids are
    replaced by names. *)
Theorem leaderboard_keeps_ranking (lb : list (string * Z))
        (getChannels : list string -> settled (list Channel))
        (body : list (string * Z)) :
  leaderboard lb getChannels = Sent body ->
  length body = length lb /\ body.*2 = lb.*2.
Proof.
  unfold leaderboard. intros Hsent.
  destruct (getChannels (lb.*1)) as [channels|]; [|done].
  destruct (hydrate channels lb) as [rows|] eqn:Hrows; [|done].
  injection Hsent as ->.
  destruct (hydrate_values channels lb body Hrows) as [Hvals _].
  split; [|done].
  by rewrite <- (length_fmap snd body), Hvals, length_fmap.
Qed.

(** X15: the name shown for a user is the title of the first channel
    returned with that id; it is "unknown" when no channel has the id or
    when that first channel's title is missing or empty, even if a later
    channel with the same id has one. *)
Theorem display_name_first_match (channels : list Channel) (uid : string) :
  ((forall c, c ∈ channels -> id c <> Some uid) ->
   display_name channels uid = Some "unknown"%string)
  /\ (forall before c after sn,
        channels = before ++ c :: after ->
        (forall c', c' ∈ before -> id c' <> Some uid) ->
        id c = Some uid -> snippet c = Some sn ->
        display_name channels uid
        = Some (match title sn with
                | Some (String a s) => String a s
                | _ => "unknown"%string
                end)).
Proof.
  split.
  - intros Hnone. unfold display_name.
    destruct (list_find _ channels) as [[i c]|] eqn:Hfind; [|done].
    apply list_find_Some in Hfind as (Hi & Hid & _).
    exfalso. apply (Hnone c); [|done]. by apply list_elem_of_lookup_2 in Hi.
  - intros before c after sn -> Hbefore Hid Hsn. unfold display_name.
    assert (Hfind : list_find (fun c => id c = Some uid) (before ++ c :: after)
                    = Some (length before, c)).
    { apply list_find_Some. split_and!; [|done|].
      - by rewrite lookup_app_r, Nat.sub_diag by lia.
      - intros j y Hj Hlt. rewrite lookup_app_l in Hj by done.
        apply Hbefore. by apply list_elem_of_lookup_2 in Hj. }
    rewrite Hfind, Hsn. unfold or_unknown.
    by destruct (title sn) as [[|a s]|].
Qed.

Definition ann_channel : Channel :=
  {| id := Some "u1"%string; snippet := Some {| title := Some "Ann"%string |} |}.

Definition untitled : Channel :=
  {| id := Some "u2"%string; snippet := Some {| title := Some ""%string |} |}.

Definition late_title : Channel :=
  {| id := Some "u2"%string; snippet := Some {| title := Some "Bob"%string |} |}.

Lemma leaderboard_keeps_ranking_witness :
  leaderboard [("u1"%string, 1200); ("u2"%string, 900); ("u3"%string, 10)]
    (fun _ => Resolved [ann_channel; untitled; late_title])
  = Sent [("Ann"%string, 1200); ("unknown"%string, 900); ("unknown"%string, 10)]
  /\ [("Ann"%string, 1200); ("unknown"%string, 900); ("unknown"%string, 10)].*2
     = [1200; 900; 10].
Proof.
  assert (Hsent : leaderboard
            [("u1"%string, 1200); ("u2"%string, 900); ("u3"%string, 10)]
            (fun _ => Resolved [ann_channel; untitled; late_title])
          = Sent [("Ann"%string, 1200); ("unknown"%string, 900);
                  ("unknown"%string, 10)]) by reflexivity.
  split; [exact Hsent|].
  apply (leaderboard_keeps_ranking _ _ _ Hsent).
Defined.

Lemma display_name_first_match_witness :
  display_name [ann_channel; untitled; late_title] "u2" = Some "unknown"%string.
Proof.
  apply (proj2 (display_name_first_match [ann_channel; untitled; late_title] "u2")
           [ann_channel] untitled [late_title] {| title := Some ""%string |}
           eq_refl).
  - intros c' Hc'. apply list_elem_of_singleton in Hc' as ->. done.
  - reflexivity.
  - reflexivity.
Defined.

End Leaderboard.

(** ** More on command registration and dispatch *)

Module Registration.
Import Commands.

(** Every key of the map belongs to the command it is bound to, and a
    command bound under one of its names is bound under all of them. *)
Definition consistent (m : gmap string Command) : Prop :=
  forall n c, m !! n = Some c ->
    n ∈ name c :: alias c
    /\ forall n', n' ∈ name c :: alias c -> m !! n' = Some c.

(** The callback [addCommandListener] hands to [onMessage]: the command it
    executes for a message, if any, and its log lines.  [tokenize] is the
    tokenization module's. *)
Definition commandListener
           (tokenize : string -> string -> Passives.TokenBin) (prefix : string)
           (m : gmap string Command) (msg : BroadcastHandler.LiveChatMessage)
  : option Command * list (string * string) :=
  let tkns := tokenize (BroadcastHandler.displayMessage msg) prefix in
  let tokenized :=
    ("debug"%string,
     "tokenized isCommand=" +:+ (if Passives.isCommand tkns then "true" else "false")
       +:+ " "
       +:+ (if Passives.isCommand tkns
            then "command=" +:+ Passives.command tkns else "")) in
  if Passives.isCommand tkns && has m (Passives.command tkns)
  then
    match m !! Passives.command tkns with
    | Some cmd =>
      (Some cmd,
       [tokenized;
        ("info"%string,
         "executing " +:+ quoted (name cmd) +:+ " with "
           +:+ quoted (Passives.command tkns))])
    | None => (None, [tokenized])
    end
  else
    (None,
     [tokenized;
      ("debug"%string,
       "no command found with name " +:+ quoted (Passives.command tkns))]).

Lemma buildCommands_step_consistent (r : Registry) (dsl : recipe) :
  consistent (commands r) -> consistent (commands (buildCommands_step r dsl)).
Proof.
  intros Hcons.
  destruct (decide (Exists (fun k => is_Some (commands r !! k))
                      (allNames (dsl newCommandBuilder)))) as [Hdup|Hfresh].
  - apply Exists_exists in Hdup as (k & Hk & Hsome).
    by rewrite (buildCommands_step_duplicate r dsl k).
  - assert (Hnone : forall k, k ∈ allNames (dsl newCommandBuilder) ->
                      commands r !! k = None).
    { intros k Hk. apply eq_None_not_Some. intros Hsome.
      apply Hfresh. apply Exists_exists. by exists k. }
    rewrite buildCommands_step_fresh by done.
    intros n c. rewrite register_lookup.
    change (name (build (dsl newCommandBuilder))
              :: alias (build (dsl newCommandBuilder)))
      with (allNames (dsl newCommandBuilder)).
    case_bool_decide as Hin.
    + intros [= <-]. split; [done|].
      intros n' Hn'. rewrite register_lookup.
      by rewrite bool_decide_eq_true_2.
    + intros Hreg. destruct (Hcons n c Hreg) as [Hn Hall].
      split; [done|]. intros n' Hn'. rewrite register_lookup.
      change (name (build (dsl newCommandBuilder))
                :: alias (build (dsl newCommandBuilder)))
        with (allNames (dsl newCommandBuilder)).
      case_bool_decide as Hin'; [|by apply Hall].
      specialize (Hall n' Hn'). rewrite (Hnone n' Hin') in Hall. done.
Qed.

Lemma buildCommands_consistent (commandRecipes : list recipe) (r : Registry) :
  consistent (commands r) ->
  consistent (commands (buildCommands commandRecipes r)).
Proof.
  revert r. induction commandRecipes as [|dsl rest IH]; intros r Hcons; [done|].
  simpl. apply IH. by apply buildCommands_step_consistent.
Qed.

Lemma consistent_empty : consistent (commands empty).
Proof. intros n c Hreg. cbn [commands empty] in Hreg. by simplify_map_eq. Qed.

(** After its turn, at least one name of a recipe is bound: its own
    command's, or the earlier one that made it a duplicate. *)
Lemma buildCommands_step_binds (r : Registry) (dsl : recipe) :
  exists n, n ∈ allNames (dsl newCommandBuilder)
            /\ is_Some (commands (buildCommands_step r dsl) !! n).
Proof.
  destruct (decide (Exists (fun k => is_Some (commands r !! k))
                      (allNames (dsl newCommandBuilder)))) as [Hdup|Hfresh].
  - apply Exists_exists in Hdup as (k & Hk & Hsome).
    exists k. split; [done|].
    by rewrite (buildCommands_step_duplicate r dsl k).
  - exists (b_name (dsl newCommandBuilder)). split; [by left|].
    rewrite buildCommands_step_fresh.
    + rewrite register_lookup. rewrite bool_decide_eq_true_2; [done|by left].
    + intros k Hk. apply eq_None_not_Some. intros Hsome.
      apply Hfresh. apply Exists_exists. by exists k.
Qed.

Lemma buildCommands_binds (commandRecipes : list recipe) (r : Registry)
      (dsl : recipe) :
  dsl ∈ commandRecipes ->
  exists n, n ∈ allNames (dsl newCommandBuilder)
            /\ is_Some (commands (buildCommands commandRecipes r) !! n).
Proof.
  revert r. induction commandRecipes as [|d rest IH]; intros r Hin.
  - by apply not_elem_of_nil in Hin.
  - apply elem_of_cons in Hin as [->|Hin]; [|by apply IH].
    destruct (buildCommands_step_binds r d) as (n & Hn & [c Hc]).
    exists n. split; [done|]. exists c.
    simpl. by apply buildCommands_keeps.
Qed.

(** Recipes that all collide with the map leave it as it is. *)
Lemma buildCommands_all_duplicates (commandRecipes : list recipe) (r : Registry) :
  (forall dsl, dsl ∈ commandRecipes ->
     exists n, n ∈ allNames (dsl newCommandBuilder)
               /\ is_Some (commands r !! n)) ->
  commands (buildCommands commandRecipes r) = commands r.
Proof.
  revert r. induction commandRecipes as [|d rest IH]; intros r Hdup; [done|].
  destruct (Hdup d) as (n & Hn & Hsome); [by left|].
  pose proof (buildCommands_step_duplicate r d n Hn Hsome) as Hstep.
  simpl. rewrite IH; [done|].
  intros dsl Hin. rewrite Hstep. apply Hdup. by right.
Qed.

Lemma buildCommands_again (commandRecipes : list recipe) (r : Registry)
      (lines : list (string * string)) :
  commands (buildCommands commandRecipes
              {| commands := commands (buildCommands commandRecipes r);
                 logged := lines |})
  = commands (buildCommands commandRecipes r).
Proof.
  rewrite buildCommands_all_duplicates; [done|].
  intros dsl Hin. cbn [commands]. by apply buildCommands_binds.
Qed.

(** X16: the registry stays consistent through the build: every token it
    holds is the name or an alias of the command it is bound to, and a
    command that is registered is registered under its name and every one
    of its aliases, never under some of them only. *)
Theorem registry_consistent (commandRecipes : list recipe) (n : string)
        (c : Command) :
  commands (buildCommands commandRecipes empty) !! n = Some c ->
  n ∈ name c :: alias c
  /\ (forall n', n' ∈ name c :: alias c ->
        callable (buildCommands commandRecipes empty) n' = Some c).
Proof.
  intros Hreg.
  destruct (buildCommands_consistent commandRecipes empty consistent_empty
              n c Hreg) as [Hn Hall].
  split; [done|]. intros n' Hn'. rewrite callable_lookup. by apply Hall.
Qed.

Lemma registry_consistent_witness :
  callable (buildCommands [recipe_of "wallet" ["bank"%string];
                           recipe_of "bank" ["vault"%string]] empty) "wallet"
  = Some (build (recipe_of "wallet" ["bank"%string] newCommandBuilder)).
Proof.
  apply (proj2 (registry_consistent
                  [recipe_of "wallet" ["bank"%string];
                   recipe_of "bank" ["vault"%string]] "bank"
                  (build (recipe_of "wallet" ["bank"%string] newCommandBuilder))
                  eq_refl)).
  by left.
Defined.

(** X17: building the commands a second time registers nothing new: every
    recipe now collides with a name bound by the first pass, so the map of
    commands is the same after the second pass. *)
Theorem buildCommands_twice (commandRecipes : list recipe) (r : Registry) :
  commands (buildCommands commandRecipes (buildCommands commandRecipes r))
  = commands (buildCommands commandRecipes r).
Proof.
  rewrite buildCommands_all_duplicates; [done|].
  intros dsl Hin. by apply buildCommands_binds.
Qed.

(** X18: dispatch goes by the registry alone: a message that is not a
    command, or whose token is not registered, executes nothing; a token
    that is the name or any alias of a registered command executes that
    command, so a command answers to all of its names alike. *)
Theorem commandListener_dispatch
        (tokenize : string -> string -> Passives.TokenBin) (prefix : string)
        (commandRecipes : list recipe) (msg : BroadcastHandler.LiveChatMessage) :
  let m := commands (buildCommands commandRecipes empty) in
  let tkns := tokenize (BroadcastHandler.displayMessage msg) prefix in
  (Passives.isCommand tkns = false ->
   (commandListener tokenize prefix m msg).1 = None)
  /\ (m !! Passives.command tkns = None ->
      (commandListener tokenize prefix m msg).1 = None)
  /\ (forall c registered,
        Passives.isCommand tkns = true ->
        m !! registered = Some c ->
        Passives.command tkns ∈ name c :: alias c ->
        (commandListener tokenize prefix m msg).1 = Some c).
Proof.
  intros m tkns. unfold commandListener. fold tkns. split_and!.
  - intros ->. done.
  - intros Hnone. unfold has. rewrite Hnone.
    rewrite bool_decide_eq_false_2 by (by intros [? ?]).
    by rewrite andb_false_r.
  - intros c registered -> Hreg Htoken.
    destruct (buildCommands_consistent commandRecipes empty consistent_empty
                registered c Hreg) as [_ Hall].
    specialize (Hall _ Htoken). fold m in Hall.
    unfold has. rewrite Hall.
    by rewrite bool_decide_eq_true_2 by done.
Qed.

Definition first_word (text pattern : string) : Passives.TokenBin :=
  {| Passives.isCommand := true; Passives.command := "bank";
     Passives.args := [] |}.

Lemma commandListener_dispatch_witness :
  (commandListener first_word "^>"
     (commands (buildCommands [recipe_of "wallet" ["bank"%string]] empty))
     (BroadcastHandler.msg ">bank" "ann" "u1")).1
  = Some (build (recipe_of "wallet" ["bank"%string] newCommandBuilder)).
Proof.
  apply (proj2 (proj2 (commandListener_dispatch first_word "^>"
                         [recipe_of "wallet" ["bank"%string]]
                         (BroadcastHandler.msg ">bank" "ann" "u1")))
           (build (recipe_of "wallet" ["bank"%string] newCommandBuilder))
           "wallet"%string eq_refl eq_refl).
  right. by left.
Defined.

End Registration.

(** ** More on the builder: what a build wires, and building again *)

Module Build.
Import JS YukiBuilder.

(** The listeners a successful [prepare] adds, in order: the command
    listener if any command is registered, the passive listener if any
    passive is. *)
Definition wired (registered : gmap string Commands.Command)
           (ps : list Passives.Passive) : list Listener :=
  (if (size registered =? 0)%nat then [] else [CommandListener])
  ++ (if (length ps =? 0)%nat then [] else [PassiveListener]).

(** The number of fields of a google config that are not strings. *)
Definition malformed (config : GoogleConfig) : nat :=
  length (not_a_string "clientId" (clientId config)
          ++ not_a_string "clientSecret" (clientSecret config)
          ++ not_a_string "redirectUri" (redirectUri config)).

(** What a build leaves alone. *)
Definition settings (b : t)
  : option YoutubeWrapper * value * value * string
    * list Commands.recipe * list Passives.Passive * bool :=
  (youtube b, tokenLoader b, userCacheLoader b, prefix_source b,
   commandRecipes b, passives b, logger_alert b).

Lemma addCommandListener_spec (b : t) :
  settings (addCommandListener b) = settings b
  /\ test (addCommandListener b) = test b
  /\ commands (addCommandListener b) = commands b
  /\ eventbus (addCommandListener b)
    = eventbus b ++ (if (size (commands b) =? 0)%nat then [] else [CommandListener]).
Proof.
  unfold addCommandListener.
  destruct (size (commands b) =? 0)%nat; split_and!; try done.
  by rewrite app_nil_r.
Qed.

Lemma addPassiveListener_spec (b : t) :
  settings (addPassiveListener b) = settings b
  /\ test (addPassiveListener b) = test b
  /\ commands (addPassiveListener b) = commands b
  /\ eventbus (addPassiveListener b)
    = eventbus b ++ (if (length (passives b) =? 0)%nat then [] else [PassiveListener]).
Proof.
  unfold addPassiveListener.
  destruct (length (passives b) =? 0)%nat; split_and!; try done.
  by rewrite app_nil_r.
Qed.

Lemma prepare_passed (b : t) :
  (prebuildCheck b).1 = Some true ->
  (prepare b).1 = Some true
  /\ settings (prepare b).2 = settings b
  /\ test (prepare b).2 = test b
  /\ usercache (prepare b).2 = true
  /\ commands (prepare b).2
    = Commands.commands
        (Commands.buildCommands (commandRecipes b)
           {| Commands.commands := commands b;
              Commands.logged := logged b ++ (prebuildCheck b).2 |})
  /\ eventbus (prepare b).2
    = eventbus b ++ wired (commands (prepare b).2) (passives b).
Proof.
  intros Hok. unfold prepare.
  destruct (prebuildCheck b) as [verdict lines]. cbn in Hok. subst verdict.
  cbn [fst snd].
  set (b1 := buildCommands (log lines b)).
  destruct (addCommandListener_spec b1) as (Hs1 & Ht1 & Hc1 & He1).
  destruct (addPassiveListener_spec (addCommandListener b1))
    as (Hs2 & Ht2 & Hc2 & He2).
  set (b3 := addPassiveListener (addCommandListener b1)) in *.
  assert (Hpassives : passives (addCommandListener b1) = passives b)
    by (unfold settings in Hs1; by simplify_eq).
  split_and!; try done.
  - change (settings (set_usercache b3)) with (settings b3).
    by rewrite Hs2, Hs1.
  - change (test (set_usercache b3)) with (test b3). by rewrite Ht2, Ht1.
  - change (commands (set_usercache b3)) with (commands b3).
    by rewrite Hc2, Hc1.
  - change (eventbus (set_usercache b3)) with (eventbus b3).
    change (commands (set_usercache b3)) with (commands b3).
    rewrite He2, He1, Hc2, Hc1, Hpassives. unfold wired.
    by rewrite <- app_assoc.
Qed.

(** What was set before a build is still set after it. *)
Lemma prepare_keeps_set (b : t) :
  (prebuildCheck b).1 = Some true ->
  nothing_set (prepare b).2 = true -> nothing_set b = true.
Proof.
  intros Hok. destruct (prepare_passed b Hok) as (_ & Hs & _ & _ & Hc & He).
  unfold nothing_set. intros Hnothing.
  apply andb_prop in Hnothing as [Hrest Hsize].
  apply andb_prop in Hrest as [Hbus Hps].
  apply Nat.eqb_eq in Hbus, Hps, Hsize.
  assert (Hpassives : passives (prepare b).2 = passives b)
    by (unfold settings in Hs; by simplify_eq).
  rewrite He, length_app in Hbus. rewrite Hpassives in Hps.
  apply map_size_empty_iff in Hsize.
  assert (Hempty : commands b = ∅).
  { apply map_empty. intros k.
    destruct (commands b !! k) as [c|] eqn:Hk; [|done].
    pose proof (Commands.buildCommands_keeps (commandRecipes b)
                  {| Commands.commands := commands b;
                     Commands.logged := logged b ++ (prebuildCheck b).2 |}
                  k c Hk) as Hkept.
    rewrite <- Hc, Hsize in Hkept. by rewrite lookup_empty in Hkept. }
  rewrite Hempty, map_size_empty.
  apply andb_true_intro. split; [|done].
  apply andb_true_intro. split; apply Nat.eqb_eq; lia.
Qed.

Lemma prebuildCheck_stays_passed (b b' : t) :
  settings b' = settings b ->
  (nothing_set b' = true -> nothing_set b = true) ->
  (prebuildCheck b).1 = Some true -> (prebuildCheck b').1 = Some true.
Proof.
  unfold settings. intros [= Hy Ht Hu _ _ _ Ha] Hset.
  unfold prebuildCheck. rewrite Hy, Ht, Hu, Ha.
  destruct (youtube b); [|done].
  destruct (is_function (tokenLoader b)); [|done]. cbn [negb].
  destruct (nothing_set b') eqn:Hn'.
  - rewrite (Hset eq_refl).
    destruct (userCacheLoader b); try done;
      by destruct (logger_alert b).
  - destruct (userCacheLoader b); try done.
Qed.

(** X19: outside test mode, a builder that passes the check builds a
    [Yuki]: its commands are the ones [buildCommands] registers from the
    recipes, the user cache is made, and the event bus gains, after the
    listeners it already had, the command listener if a command is
    registered and the passive listener if a passive is, in that order;
    the configuration is not touched. *)
Theorem buildYuki_wires (b : t) :
  test b = false -> (prebuildCheck b).1 = Some true ->
  (buildYuki b).1 = Resolved (Some (Yuki (buildYuki b).2))
  /\ commands (buildYuki b).2
    = Commands.commands
        (Commands.buildCommands (commandRecipes b)
           {| Commands.commands := commands b;
              Commands.logged := logged b ++ (prebuildCheck b).2 |})
  /\ eventbus (buildYuki b).2
    = eventbus b ++ wired (commands (buildYuki b).2) (passives b)
  /\ usercache (buildYuki b).2 = true
  /\ settings (buildYuki b).2 = settings b.
Proof.
  intros Htest Hok.
  destruct (prepare_passed b Hok) as (Hp & Hs & _ & Hu & Hc & He).
  unfold buildYuki. rewrite Htest.
  destruct (prepare b) as [ok b1]. cbn in *. subst ok. cbn.
  by split_and!.
Qed.

(** A builder with a google config, a token loader, one recipe and one
    passive. *)
Definition ready : t :=
  passive Passives.once
    (set_tokenLoader (Fun "loadTokens")
       (set_googleConfig mock
          {| youtube := None; tokenLoader := Undefined;
             userCacheLoader := Undefined;
             test := false; prefix_source := "^>";
             commandRecipes := [Commands.recipe_of "wallet" ["bank"%string]];
             commands := ∅; passives := []; eventbus := [];
             usercache := false; logger_alert := false; logged := [] |})).

Lemma buildYuki_wires_witness :
  eventbus (buildYuki ready).2 = [CommandListener; PassiveListener]
  /\ usercache (buildYuki ready).2 = true.
Proof.
  destruct (buildYuki_wires ready eq_refl eq_refl) as (_ & _ & Hbus & Hcache & _).
  split; [|exact Hcache].
  rewrite Hbus. reflexivity.
Defined.

(** X20: a build is not repeatable on the same builder: when the first
    build passes the check, building a second time passes it too and
    registers no new command, every recipe now being a duplicate, but adds
    the command and passive listeners once more, so that the event bus
    holds them twice. *)
Theorem buildYuki_twice (b : t) :
  test b = false -> (prebuildCheck b).1 = Some true ->
  (buildYuki (buildYuki b).2).1
  = Resolved (Some (Yuki (buildYuki (buildYuki b).2).2))
  /\ commands (buildYuki (buildYuki b).2).2 = commands (buildYuki b).2
  /\ eventbus (buildYuki (buildYuki b).2).2
    = eventbus b
      ++ wired (commands (buildYuki b).2) (passives b)
      ++ wired (commands (buildYuki b).2) (passives b).
Proof.
  intros Htest Hok.
  assert (Hfirst : (buildYuki b).2 = (prepare b).2).
  { unfold buildYuki. rewrite Htest.
    by destruct (prepare b) as [[[|]|] b1]. }
  destruct (prepare_passed b Hok) as (_ & Hs & Ht & _ & Hc & He).
  pose proof (prepare_keeps_set b Hok) as Hset.
  rewrite Hfirst.
  set (b1 := (prepare b).2) in *.
  assert (Hok1 : (prebuildCheck b1).1 = Some true)
    by (by apply (prebuildCheck_stays_passed b b1)).
  assert (Htest1 : test b1 = false) by congruence.
  destruct (prepare_passed b1 Hok1) as (_ & Hs1 & _ & _ & Hc1 & He1).
  assert (Hsecond : buildYuki b1
                    = (Resolved (Some (Yuki (prepare b1).2)), (prepare b1).2)).
  { unfold buildYuki. rewrite Htest1.
    pose proof (prepare_verdict b1) as Hv. rewrite Hok1 in Hv.
    destruct (prepare b1) as [ok b2]. cbn in Hv. by subst ok. }
  rewrite Hsecond. cbn [fst snd].
  assert (Hrecipes : commandRecipes b1 = commandRecipes b)
    by (unfold settings in Hs; by simplify_eq).
  assert (Hpassives : passives b1 = passives b)
    by (unfold settings in Hs; by simplify_eq).
  assert (Hsame : commands (prepare b1).2 = commands b1).
  { rewrite Hc1, Hrecipes. rewrite Hc at 1 2.
    apply Registration.buildCommands_again. }
  split_and!; [done|done|].
  rewrite He1, Hsame, Hpassives, He. by rewrite <- app_assoc.
Qed.

Lemma buildYuki_twice_witness :
  eventbus (buildYuki (buildYuki ready).2).2
  = [CommandListener; PassiveListener; CommandListener; PassiveListener].
Proof.
  destruct (buildYuki_twice ready eq_refl eq_refl) as (_ & _ & Hbus).
  rewrite Hbus. reflexivity.
Defined.

(** X21: test mode sticks to the builder: a bot built by [buildTest] is a
    [TestYuki] in test mode, the builder is left in test mode, and from
    then on [buildYuki] on that builder never resolves with a [Yuki]. *)
Theorem buildTest_is_sticky (b : t) (bot : Bot) :
  (buildTest b).1 = Resolved (Some bot) ->
  bot = TestYuki (buildTest b).2
  /\ test (buildTest b).2 = true
  /\ (forall from, (buildYuki (buildTest b).2).1 <> Resolved (Some (Yuki from))).
Proof.
  intros Hbuilt.
  assert (Hshape : bot = TestYuki (buildTest b).2 /\ test (buildTest b).2 = true).
  { unfold buildTest in *.
    destruct (prepare (fill_for_test b)) as [[[|]|] b1]; cbn in *; [|done..].
    by simplify_eq. }
  destruct Hshape as [Hbot Htest]. split_and!; [done|done|].
  intros from. unfold buildYuki. rewrite Htest.
  rewrite buildTest_result.
  by destruct (prebuildCheck _).1 as [[|]|].
Qed.

Lemma buildTest_is_sticky_witness :
  test (buildTest one_passive).2 = true
  /\ (buildYuki (buildTest one_passive).2).1 <> Resolved (Some (Yuki one_passive)).
Proof.
  destruct (buildTest_is_sticky one_passive (TestYuki (buildTest one_passive).2))
    as (_ & Htest & Hnever).
  - rewrite buildTest_result. reflexivity.
  - split; [exact Htest|apply Hnever].
Defined.

(** X22: the google config setter constructs the wrapper exactly when
    all three fields are strings; otherwise it logs one error for every
    field that is not a string and leaves the builder's wrapper as it
    was, be it unset or set by an earlier, well-formed config. *)
Theorem set_googleConfig_validates (config : GoogleConfig) (b : t) :
  (malformed config = 0%nat ->
   exists id secret uri,
     config = {| clientId := Str id; clientSecret := Str secret;
                 redirectUri := Str uri |}
     /\ youtube (set_googleConfig config b)
        = Some {| wrapped_clientId := id; wrapped_clientSecret := secret;
                  wrapped_redirectUri := uri |})
  /\ (malformed config <> 0%nat ->
      youtube (set_googleConfig config b) = youtube b)
  /\ length (logged (set_googleConfig config b))
    = (length (logged b) + malformed config)%nat.
Proof.
  unfold malformed, set_googleConfig.
  destruct config as [[] [] []]; cbn; split_and!; try done;
    try (rewrite length_app; cbn; lia).
  intros _. by eexists _, _, _.
Qed.

Lemma set_googleConfig_validates_witness :
  youtube (set_googleConfig
             {| clientId := Str "id"; clientSecret := Undefined;
                redirectUri := Num 3 |} (set_googleConfig mock new))
  = youtube (set_googleConfig mock new)
  /\ length (logged (set_googleConfig
                       {| clientId := Str "id"; clientSecret := Undefined;
                          redirectUri := Num 3 |} new)) = 2%nat.
Proof.
  destruct (set_googleConfig_validates
              {| clientId := Str "id"; clientSecret := Undefined;
                 redirectUri := Num 3 |} (set_googleConfig mock new))
    as (_ & Hkeep & _).
  destruct (set_googleConfig_validates
              {| clientId := Str "id"; clientSecret := Undefined;
                 redirectUri := Num 3 |} new) as (_ & _ & Hlines).
  split; [apply Hkeep; discriminate|exact Hlines].
Defined.

End Build.

(** ** The loader wrappers of the builder *)

Module Loaders.
Import JS Res.

(** [typeof v] *)
Definition typeof (v : value) : string :=
  match v with
  | Undefined => "undefined"
  | Null => "object"
  | Bool _ => "boolean"
  | Num _ => "number"
  | Str _ => "string"
  | Obj _ => "object"
  | Fun _ => "function"
  end.

(** The value of an own property, by key. *)
Fixpoint assoc (key : string) (props : list (string * value)) : option value :=
  match props with
  | [] => None
  | (k, v) :: rest => if decide (k = key) then Some v else assoc key rest
  end.

(** [key in v] for an object or a function. *)
Definition has_property (key : string) (v : value) : bool :=
  match v with
  | Obj props => bool_decide (is_Some (assoc key props))
  | _ => false
  end.

(** [v.key] *)
Definition get_property (key : string) (v : value) : value :=
  match v with
  | Obj props => default Undefined (assoc key props)
  | _ => Undefined
  end.

(** [!(key in value) || typeof value.key !== ty] *)
Definition lacks (key ty : string) (v : value) : bool :=
  negb (has_property key v)
  || negb (String.eqb (typeof (get_property key v)) ty).

Definition missing (key : string) : string * string :=
  ("error"%string,
   "supplied token loader is missing " +:+ Commands.quoted key).

(** How a wrapped loader ends: with a result, or with the [TypeError] of
    an [in] test on a primitive. *)
Inductive ending :=
| Returned (r : Result value)
| Thrown.

(** The loader [wrapTokenLoader(inner)] returns, given what
    [attempt(inner, ...)] resolved with; [attempt] is a utility that is
    not among the sources. *)
Definition wrapTokenLoader (attempted : Result value)
  : ending * list (string * string) :=
  match attempted with
  | Failure =>
    (Returned failure, [("error"%string, "supplied token loader failed"%string)])
  | Success value =>
    match value with
    | Undefined | Null =>
      (Returned failure,
       [("error"%string,
         "supplied token loader returned undefined or null"%string)])
    | Bool _ | Num _ | Str _ => (Thrown, [])
    | Obj _ | Fun _ =>
      let failed := false in
      let '(failed, l1) :=
        if lacks "expiry_date" "number" value
        then (true, [missing "expiry_date"]) else (failed, []) in
      let '(failed, l2) :=
        if lacks "refresh_token" "string" value
        then (true, [missing "refresh_token"]) else (failed, []) in
      let '(failed, l3) :=
        if lacks "access_token" "string" value
        then (true, [missing "access_token"]) else (failed, []) in
      let '(failed, l4) :=
        if lacks "token_type" "string" value
        then (true, [missing "token_type"]) else (failed, []) in
      let '(failed, l5) :=
        if lacks "scope" "string" value
        then (true, [missing "scope"]) else (failed, []) in
      (Returned (if failed then failure else successOf value),
       l1 ++ l2 ++ l3 ++ l4 ++ l5)
    end
  end.

(** The loader [wrapUserCacheLoader(inner)] returns. *)
Definition wrapUserCacheLoader (attempted : Result value) : Result value :=
  match attempted with
  | Success value =>
    if negb (String.eqb (typeof value) "object") then failure else successOf value
  | Failure => failure
  end.

(** The fields of a credentials object and their types. *)
Definition token_fields : list (string * string) :=
  [("expiry_date", "number"); ("refresh_token", "string");
   ("access_token", "string"); ("token_type", "string");
   ("scope", "string")]%string.

(** An object that holds every credentials field with its type. *)
Definition credentials (v : value) : Prop :=
  exists props, v = Obj props
    /\ forall key ty, (key, ty) ∈ token_fields ->
         exists x, assoc key props = Some x /\ typeof x = ty.

Lemma lacks_false (key ty : string) (v : value) :
  lacks key ty v = false
  <-> exists props x, v = Obj props /\ assoc key props = Some x /\ typeof x = ty.
Proof.
  unfold lacks, has_property, get_property. split.
  - intros Hok. apply orb_false_elim in Hok as [Hin Hty].
    apply negb_false_iff in Hin, Hty.
    destruct v as [| | | | |props|]; try done.
    apply bool_decide_eq_true in Hin as [x Hx].
    exists props, x. rewrite Hx in Hty. cbn in Hty.
    by apply String.eqb_eq in Hty.
  - intros (props & x & -> & Hx & <-). rewrite Hx. cbn.
    by rewrite String.eqb_refl.
Qed.

(** X23: the wrapped token loader succeeds exactly when the inner loader
    succeeded with an object that holds all five credentials fields with
    their types, and it passes that object on unchanged; for an object
    that lacks some, it logs one error for every field that is missing or
    ill-typed, not only for the first. *)
Theorem wrapTokenLoader_accepts (attempted : Result value) (v : value) :
  ((wrapTokenLoader attempted).1 = Returned (successOf v)
   <-> attempted = Success v /\ credentials v)
  /\ (forall props,
        attempted = Success (Obj props) ->
        (wrapTokenLoader attempted).2
        = missing <$> (filter (fun f => lacks f.1 f.2 (Obj props) = true)
                         token_fields).*1).
Proof.
  split.
  - split.
    + intros Hok. destruct attempted as [value|]; [|done].
      destruct value as [| |b|n|s|props|tag]; try done; cbn in Hok.
      destruct (lacks "expiry_date" "number" (Obj props)) eqn:H1;
        destruct (lacks "refresh_token" "string" (Obj props)) eqn:H2;
        destruct (lacks "access_token" "string" (Obj props)) eqn:H3;
        destruct (lacks "token_type" "string" (Obj props)) eqn:H4;
        destruct (lacks "scope" "string" (Obj props)) eqn:H5;
        try done.
      injection Hok as <-. split; [done|].
      exists props. split; [done|]. intros key ty Hin.
      unfold token_fields in Hin.
      repeat (apply elem_of_cons in Hin as [[= -> ->]|Hin];
              [match goal with
               | H : lacks ?k ?t _ = false |- context [assoc ?k _] =>
                 apply lacks_false in H as (props' & x & [= <-] & Hx & Ht);
                 by exists x
               end|]).
      by apply not_elem_of_nil in Hin.
    + intros [-> (props & -> & Hall)]. cbn.
      assert (Hf : forall key ty, (key, ty) ∈ token_fields ->
                     lacks key ty (Obj props) = false).
      { intros key ty Hin. apply lacks_false.
        destruct (Hall key ty Hin) as (x & Hx & Ht). by exists props, x. }
      rewrite !Hf by (by apply (bool_decide_unpack _)). done.
  - intros props ->. unfold token_fields, wrapTokenLoader.
    rewrite !filter_cons, filter_nil. cbn [fst snd].
    destruct (lacks "expiry_date" "number" (Obj props));
      destruct (lacks "refresh_token" "string" (Obj props));
      destruct (lacks "access_token" "string" (Obj props));
      destruct (lacks "token_type" "string" (Obj props));
      destruct (lacks "scope" "string" (Obj props)); done.
Qed.

Definition good_token : value :=
  Obj [("access_token", Str "a"); ("refresh_token", Str "r");
       ("scope", Str "s"); ("token_type", Str "Bearer");
       ("expiry_date", Num 1700000000)]%string.

Lemma wrapTokenLoader_accepts_witness :
  (wrapTokenLoader (Success good_token)).1 = Returned (successOf good_token)
  /\ length (wrapTokenLoader
               (Success (Obj [("scope"%string, Num 1)]))).2 = 5%nat.
Proof.
  split.
  - apply (proj1 (wrapTokenLoader_accepts (Success good_token) good_token)).
    split; [done|]. exists [("access_token", Str "a"); ("refresh_token", Str "r");
       ("scope", Str "s"); ("token_type", Str "Bearer");
       ("expiry_date", Num 1700000000)]%string.
    split; [done|]. intros key ty Hin. unfold token_fields in Hin.
    repeat (apply elem_of_cons in Hin as [[= -> ->]|Hin];
            [eexists; split; reflexivity|]).
    by apply not_elem_of_nil in Hin.
  - rewrite (proj2 (wrapTokenLoader_accepts
                      (Success (Obj [("scope"%string, Num 1)])) Undefined)
               [("scope"%string, Num 1)] eq_refl).
    reflexivity.
Defined.

(** X24: the wrapped user cache loader succeeds exactly when the inner
    loader succeeded with a value whose [typeof] is "object": any object,
    and also [null]; [undefined], functions, strings, numbers and booleans
    are turned into a failure. *)
Theorem wrapUserCacheLoader_accepts (attempted : Result value) (v : value) :
  wrapUserCacheLoader attempted = successOf v
  <-> attempted = Success v /\ (v = Null \/ exists props, v = Obj props).
Proof.
  unfold wrapUserCacheLoader. split.
  - destruct attempted as [value|]; [|done].
    destruct value; cbn; try done; intros [= <-]; split; try done;
      [by left|right; by eexists].
  - intros [-> [->|[props ->]]]; done.
Qed.

End Loaders.

(** ** Listeners: batches, removal and the passives' bookkeeping *)

Module Listeners.
Import JS Passives.

Section OnMessage.

(** The listener given to [onMessage] may keep state of its own and
    returns a value; the optional death predicate sees the message and
    that value. *)
Context {S T : Type}.
Variable listener : BroadcastHandler.LiveChatMessage -> S -> settled T * S.
Variable deathPredicate :
  option (BroadcastHandler.LiveChatMessage -> T -> settled bool).






End OnMessage.




Section Bookkeeping.
Variable tokenize : string -> string -> TokenBin.
Variable prefix : string.

Lemma runCount_from (acc : Z) (flags : list bool) (i : nat) :
  foldl (fun sum (cur : bool) => sum + (if cur then 1 else 0)) acc flags
  = acc + Z.of_nat (length (true_positions i flags)).
Proof.
  revert acc i. induction flags as [|b flags IH]; intros acc i; cbn; [lia|].
  rewrite (IH _ (S i)). destruct b; cbn [length]; lia.
Qed.

(** X27: the count the listener logs is right: when the predicates
    return, the logged line reads "running k/n passives" with [k] the
    number of passives whose predicate returned true and [n] the number of
    registered passives. *)
Theorem passiveListener_logs_count (passives : list Passive)
        (msg : BroadcastHandler.LiveChatMessage) :
  (forall p, p ∈ passives ->
     exists b, (predicate p msg
                  (tokenize (BroadcastHandler.displayMessage msg) prefix)
                  (memory p)).1 = Resolved b) ->
  lines (passiveListener tokenize prefix passives msg)
  = [("info"%string,
      "running "
        +:+ pretty (Z.of_nat (length (matched_from tokenize prefix 0 msg passives)))
        +:+ "/" +:+ pretty (length passives) +:+ " passives")].
Proof.
  intros Hreturn. unfold passiveListener.
  set (tokens := tokenize (BroadcastHandler.displayMessage msg) prefix) in *.
  destruct (predicates_from_spec msg tokens passives 0) as (Hv & _ & _).
  destruct (predicates_from 0 msg tokens passives) as [[vs ps1] evs].
  cbn in Hv. subst vs.
  assert (Hflags : exists flags,
            (fun p => (predicate p msg tokens (memory p)).1) <$> passives
            = Resolved <$> flags).
  { clear ps1. induction passives as [|p rest IH]; [by exists []|].
    destruct (Hreturn p) as [b Hb]; [by left|].
    destruct IH as [flags Hf]; [intros q Hq; apply Hreturn; by right|].
    exists (b :: flags). rewrite !fmap_cons. by rewrite Hb, Hf. }
  destruct Hflags as [flags Hflags].
  rewrite (proj2 (Promise_all_resolved _ flags) Hflags).
  destruct (invocations_from 0 msg tokens ps1 flags) as [[ds ps2] invoked].
  cbn [lines]. unfold runCount.
  rewrite (runCount_from 0 flags 0).
  rewrite (matched_from_flags tokenize prefix msg passives flags 0 Hflags).
  by rewrite Z.add_0_l.
Qed.

End Bookkeeping.

Lemma passiveListener_logs_count_witness :
  lines (passiveListener no_tokens "^>" [always true; always false; once]
           (BroadcastHandler.msg "hello" "ann" "u1"))
  = [("info"%string, "running 2/3 passives"%string)].
Proof.
  assert (Hreturn : forall p, p ∈ [always true; always false; once] ->
            exists b, (predicate p (BroadcastHandler.msg "hello" "ann" "u1")
                         (no_tokens "hello" "^>") (memory p)).1 = Resolved b).
  { intros p Hp. apply elem_of_cons in Hp as [->|Hp]; [by exists true|].
    apply elem_of_cons in Hp as [->|Hp]; [by exists false|].
    apply list_elem_of_singleton in Hp as ->. by exists true. }
  rewrite (passiveListener_logs_count no_tokens "^>"
             [always true; always false; once]
             (BroadcastHandler.msg "hello" "ann" "u1") Hreturn).
  reflexivity.
Defined.

End Listeners.
